(** * jira-database-etl: the dynamic extraction and loading pipeline

    A shallow embedding of [src/jira_database_etl/__init__.py]
    (the functions [extract_path], [infer_columns],
    [drop_and_create_table], [insert_rows] and [Database.upload_dynamic])
    together with the library behaviour these functions rely on
    ([dict.get], [str.split], [json.dumps], [json.loads], the
    [engine.begin()] context manager of SQLAlchemy). *)

From Stdlib Require Import ZArith NArith String Ascii Lia.
From Stdlib Require DecimalFacts DecimalPos.
From stdpp Require Import base option list gmap sets.

Local Open Scope N_scope.

(** ** Python values *)

(** A Python [str] is a sequence of Unicode code points. *)
Definition codepoint := N.
Definition pystr := list codepoint.

(** An ASCII literal of the source, as a [pystr]. *)
Definition lit (s : string) : pystr :=
  map N_of_ascii (list_ascii_of_string s).
Arguments lit : simpl never.

(** The values the pipeline handles are the ones [json.loads] builds:
    [None], [bool], [int], [float], [str], [list] and [dict] with [str]
    keys.  A [dict] keeps its insertion order (the order matters for
    [json.dumps] and for [list(d.keys())]), so it is an association list.
    A finite [float] is identified with the text of its [repr], which is
    what [json.dumps] prints and which [float()] reads back to the same
    number; [nan] and the infinities have no constructor. *)
#[local] Unset Elimination Schemes.
Inductive pyval : Type :=
| PNone
| PBool (b : bool)
| PInt (z : Z)
| PFloat (r : pystr)
| PStr (s : pystr)
| PList (l : list pyval)
| PDict (d : list (pystr * pyval)).

#[local] Set Elimination Schemes.

Definition pydict := list (pystr * pyval).

(** [isinstance(v, dict)], [isinstance(v, list)], [v is None]. *)
Definition is_dict (v : pyval) : bool :=
  match v with PDict _ => true | _ => false end.
Definition is_list (v : pyval) : bool :=
  match v with PList _ => true | _ => false end.
Definition is_none (v : pyval) : bool :=
  match v with PNone => true | _ => false end.

(** ** Exceptions and the result of a call *)

Inductive exn : Type :=
| AttributeError
| IndexError
| KeyError
| TypeError
| DBAPIError (code : N).

Inductive outcome (A : Type) : Type :=
| Ok (a : A)
| Raise (e : exn).
Arguments Ok {A} a.
Arguments Raise {A} e.

#[global] Instance outcome_ret : MRet outcome := λ A a, Ok a.
#[global] Instance outcome_bind : MBind outcome := λ A B f m,
  match m with
  | Ok a => f a
  | Raise e => Raise e
  end.

(** ** Dictionaries *)

(** [d.get(k)] as an option: the entry of the first (and, in a real dict,
    only) occurrence of the key. *)
Fixpoint dict_lookup (d : pydict) (k : pystr) : option pyval :=
  match d with
  | [] => None
  | (k', v) :: d' => if decide (k' = k) then Some v else dict_lookup d' k
  end.

(** [d[k] = v]: an existing key keeps its position, a new key is appended. *)
Fixpoint dict_set (d : pydict) (k : pystr) (v : pyval) : pydict :=
  match d with
  | [] => [(k, v)]
  | (k', v') :: d' =>
      if decide (k' = k) then (k, v) :: d' else (k', v') :: dict_set d' k v
  end.

Definition dict_keys (d : pydict) : list pystr := d.*1.

(** [dict(pairs)]. *)
Definition dict_of_pairs (kvs : list (pystr * pyval)) : pydict :=
  foldl (λ d kv, dict_set d kv.1 kv.2) [] kvs.

(** [obj.get(k, dflt)]: only a dict has the method. *)
Definition py_get (obj : pyval) (k : pystr) (dflt : pyval) : outcome pyval :=
  match obj with
  | PDict d => Ok (default dflt (dict_lookup d k))
  | _ => Raise AttributeError
  end.

(** [obj[k]] with a string key. *)
Definition py_getitem_key (obj : pyval) (k : pystr) : outcome pyval :=
  match obj with
  | PDict d =>
      match dict_lookup d k with
      | Some v => Ok v
      | None => Raise KeyError
      end
  | _ => Raise TypeError
  end.

(** [obj[0]]. *)
Definition py_getitem_0 (obj : pyval) : outcome pyval :=
  match obj with
  | PList l =>
      match l !! 0%nat with
      | Some v => Ok v
      | None => Raise IndexError
      end
  | PStr s =>
      match s !! 0%nat with
      | Some c => Ok (PStr [c])
      | None => Raise IndexError
      end
  | PDict _ => Raise KeyError
  | _ => Raise TypeError
  end.

(** ** Strings *)

(** [s.split(sep)] for a one-character separator: the pieces between the
    occurrences of [sep]; there is always at least one piece. *)
Fixpoint split_at (sep : codepoint) (s : pystr) : list pystr :=
  match s with
  | [] => [[]]
  | c :: s' =>
      if decide (c = sep) then [] :: split_at sep s'
      else match split_at sep s' with
           | [] => [[c]]
           | p :: ps => (c :: p) :: ps
           end
  end.

(** [sep.join(parts)]. *)
Definition join (sep : pystr) (parts : list pystr) : pystr :=
  match parts with
  | [] => []
  | p :: ps => p ++ concat (map (λ q, sep ++ q) ps)
  end.

Definition DOT : codepoint := 46.
Definition DQUOTE : codepoint := 34.

(** ** The configuration *)

Definition DYNAMIC_TABLES : list (pystr * pystr) :=
  [ (lit "jira_subtasks", lit "fields.subtasks");
    (lit "jira_changelog", lit "changelog.histories") ].

(** ** Dynamic extraction *)

(** The loop of [extract_path] over the segments of the path. *)
Fixpoint extract_segments (obj : pyval) (segs : list pystr) : outcome pyval :=
  match segs with
  | [] => Ok obj
  | p :: segs' =>
      if negb (is_dict obj) then Ok (PList [])
      else obj' ← py_get obj p (PList []);
           if is_none obj' then Ok (PList [])
           else extract_segments obj' segs'
  end.

Definition extract_path (obj : pyval) (path : pystr) : outcome pyval :=
  extract_segments obj (split_at DOT path).

(** [cols.update(keys)] on the set of column names. *)
Definition set_update (cols : gset pystr) (keys : list pystr) : gset pystr :=
  cols ∪ list_to_set keys.

(** The loop of [infer_columns]. *)
Definition infer_columns_set (rows : list pyval) : gset pystr :=
  foldl (λ cols r,
           match r with
           | PDict d => set_update cols (dict_keys d)
           | _ => cols
           end) ∅ rows.

(** [list(cols)]: the elements of the set in some order without
    repetition. *)
Definition infer_columns (rows : list pyval) : list pystr :=
  elements (infer_columns_set rows).

(** ** [json.dumps(v, ensure_ascii=False)] *)

Definition hex_digit (n : N) : codepoint :=
  if n <? 10 then 48 + n else 87 + n.

(** One character inside a JSON string: the quote, the backslash and the
    control characters are escaped, every other character, ASCII or not,
    is written as it is. *)
Definition escape_char (c : codepoint) : pystr :=
  if decide (c = 34) then [92; 34]
  else if decide (c = 92) then [92; 92]
  else if decide (c = 10) then [92; 110]
  else if decide (c = 13) then [92; 114]
  else if decide (c = 9) then [92; 116]
  else if decide (c = 8) then [92; 98]
  else if decide (c = 12) then [92; 102]
  else if c <? 32 then [92; 117; 48; 48; hex_digit (c / 16); hex_digit (c mod 16)]
  else [c].

Definition encode_basestring (s : pystr) : pystr :=
  [DQUOTE] ++ concat (map escape_char s) ++ [DQUOTE].

Fixpoint uint_chars (u : Decimal.uint) : pystr :=
  match u with
  | Decimal.Nil => []
  | Decimal.D0 u => 48 :: uint_chars u
  | Decimal.D1 u => 49 :: uint_chars u
  | Decimal.D2 u => 50 :: uint_chars u
  | Decimal.D3 u => 51 :: uint_chars u
  | Decimal.D4 u => 52 :: uint_chars u
  | Decimal.D5 u => 53 :: uint_chars u
  | Decimal.D6 u => 54 :: uint_chars u
  | Decimal.D7 u => 55 :: uint_chars u
  | Decimal.D8 u => 56 :: uint_chars u
  | Decimal.D9 u => 57 :: uint_chars u
  end.

(** [int.__repr__]: the decimal digits, after a minus sign for a negative
    number.  (The interpreter's limit on the number of digits of such a
    conversion applies to [json.loads] in the same way, so an [int] that
    was read from JSON text can be written.) *)
Definition int_repr (z : Z) : pystr :=
  match z with
  | Z0 => [48]
  | Zpos p => uint_chars (Pos.to_uint p)
  | Zneg p => 45 :: uint_chars (Pos.to_uint p)
  end.

Fixpoint dumps (v : pyval) : pystr :=
  match v with
  | PNone => lit "null"
  | PBool true => lit "true"
  | PBool false => lit "false"
  | PInt z => int_repr z
  | PFloat r => r
  | PStr s => encode_basestring s
  | PList l =>
      match l with
      | [] => lit "[]"
      | _ => [91] ++ join (lit ", ") (map dumps l) ++ [93]
      end
  | PDict d =>
      match d with
      | [] => lit "{}"
      | _ =>
          [123] ++
          join (lit ", ")
               (map (λ kv, encode_basestring kv.1 ++ lit ": " ++ dumps kv.2) d)
          ++ [125]
      end
  end.

(** ** [json.loads]

    The decoder of the standard library (the scanner [scan_once], the
    string scanner [scanstring] in strict mode, [JSONArray] and
    [JSONObject]), on a text given as its list of characters.  The result
    is [None] where the decoder raises [JSONDecodeError].  The literals
    [NaN], [Infinity] and [-Infinity] denote floats that [pyval] does not
    represent and are not accepted here. *)

Definition is_ws (c : codepoint) : bool :=
  bool_decide (c = 32 ∨ c = 9 ∨ c = 10 ∨ c = 13).

Fixpoint skip_ws (s : pystr) : pystr :=
  match s with
  | c :: s' => if is_ws c then skip_ws s' else s
  | [] => []
  end.

Definition hex_val (c : codepoint) : option N :=
  if (48 <=? c) && (c <=? 57) then Some (c - 48)
  else if (97 <=? c) && (c <=? 102) then Some (c - 87)
  else if (65 <=? c) && (c <=? 70) then Some (c - 55)
  else None.

Definition unhex4 (h1 h2 h3 h4 : codepoint) : option N :=
  a ← hex_val h1; b ← hex_val h2; c ← hex_val h3; d ← hex_val h4;
  Some (((a * 16 + b) * 16 + c) * 16 + d).

(** The table [BACKSLASH] of the one-letter escapes. *)
Definition unescape (esc : codepoint) : option codepoint :=
  if decide (esc = 34) then Some 34
  else if decide (esc = 92) then Some 92
  else if decide (esc = 47) then Some 47
  else if decide (esc = 98) then Some 8
  else if decide (esc = 102) then Some 12
  else if decide (esc = 110) then Some 10
  else if decide (esc = 114) then Some 13
  else if decide (esc = 116) then Some 9
  else None.

Definition high_surrogate (u : N) : bool := (0xd800 <=? u) && (u <=? 0xdbff).
Definition low_surrogate (u : N) : bool := (0xdc00 <=? u) && (u <=? 0xdfff).
Definition join_surrogates (u u2 : N) : codepoint :=
  0x10000 + N.lor (N.shiftl (u - 0xd800) 10) (u2 - 0xdc00).

(** [scanstring], entered after the opening quote: the decoded string and
    the text after the closing quote.  A [\u] escape is four hexadecimal
    digits, as the C scanner reads it; a high surrogate followed by the
    escape of a low surrogate gives one character. *)
Fixpoint scanstring (s : pystr) : option (pystr * pystr) :=
  match s with
  | [] => None
  | c :: s1 =>
      if decide (c = 34) then Some ([], s1)
      else if decide (c = 92) then
        match s1 with
        | [] => None
        | esc :: s2 =>
            if decide (esc = 117) then
              match s2 with
              | h1 :: h2 :: h3 :: h4 :: s3 =>
                  match unhex4 h1 h2 h3 h4 with
                  | None => None
                  | Some uni =>
                      if high_surrogate uni then
                        match s3 with
                        | b :: u :: l1 :: l2 :: l3 :: l4 :: s4 =>
                            if bool_decide (b = 92 ∧ u = 117) then
                              match unhex4 l1 l2 l3 l4 with
                              | None => None
                              | Some uni2 =>
                                  if low_surrogate uni2 then
                                    '(str, rest) ← scanstring s4;
                                    Some (join_surrogates uni uni2 :: str, rest)
                                  else
                                    '(str, rest) ← scanstring s3;
                                    Some (uni :: str, rest)
                              end
                            else
                              '(str, rest) ← scanstring s3;
                              Some (uni :: str, rest)
                        | _ =>
                            '(str, rest) ← scanstring s3;
                            Some (uni :: str, rest)
                        end
                      else
                        '(str, rest) ← scanstring s3;
                        Some (uni :: str, rest)
                  end
              | _ => None
              end
            else
              match unescape esc with
              | None => None
              | Some ch =>
                  '(str, rest) ← scanstring s2;
                  Some (ch :: str, rest)
              end
        end
      else if c <? 32 then None
      else '(str, rest) ← scanstring s1; Some (c :: str, rest)
  end.

Definition is_digit (c : codepoint) : bool := (48 <=? c) && (c <=? 57).

(** The longest run of digits at the start of the text. *)
Fixpoint span_digits (s : pystr) : pystr * pystr :=
  match s with
  | c :: s' =>
      if is_digit c then
        let '(ds, rest) := span_digits s' in (c :: ds, rest)
      else ([], s)
  | [] => ([], [])
  end.

(** The three groups of [NUMBER_RE]: an optional minus sign followed by
    [0] or by a digit from 1 to 9 and any digits; optionally a dot and at
    least one digit; optionally [e] or [E], an optional sign and at least
    one digit. *)
Definition match_unsigned (s : pystr) : option (pystr * pystr) :=
  match s with
  | c :: s' =>
      if decide (c = 48) then Some ([48], s')
      else if is_digit c then
        let '(ds, rest) := span_digits s' in Some (c :: ds, rest)
      else None
  | [] => None
  end.

Definition match_integer (s : pystr) : option (pystr * pystr) :=
  match s with
  | c :: s' =>
      if decide (c = 45) then
        '(ds, rest) ← match_unsigned s'; Some (45 :: ds, rest)
      else match_unsigned s
  | [] => None
  end.

Definition match_frac (s : pystr) : pystr * pystr :=
  match s with
  | c :: s' =>
      if decide (c = 46) then
        match span_digits s' with
        | ([], _) => ([], s)
        | (ds, rest) => (46 :: ds, rest)
        end
      else ([], s)
  | [] => ([], [])
  end.

Definition match_exp (s : pystr) : pystr * pystr :=
  match s with
  | c :: s' =>
      if bool_decide (c = 101 ∨ c = 69) then
        let '(sign, s'') :=
          match s' with
          | g :: t => if bool_decide (g = 45 ∨ g = 43) then ([g], t) else ([], s')
          | [] => ([], s')
          end in
        match span_digits s'' with
        | ([], _) => ([], s)
        | (ds, rest) => (c :: sign ++ ds, rest)
        end
      else ([], s)
  | [] => ([], [])
  end.

Fixpoint chars_uint (s : pystr) : option Decimal.uint :=
  match s with
  | [] => Some Decimal.Nil
  | c :: s' =>
      u ← chars_uint s';
      if decide (c = 48) then Some (Decimal.D0 u)
      else if decide (c = 49) then Some (Decimal.D1 u)
      else if decide (c = 50) then Some (Decimal.D2 u)
      else if decide (c = 51) then Some (Decimal.D3 u)
      else if decide (c = 52) then Some (Decimal.D4 u)
      else if decide (c = 53) then Some (Decimal.D5 u)
      else if decide (c = 54) then Some (Decimal.D6 u)
      else if decide (c = 55) then Some (Decimal.D7 u)
      else if decide (c = 56) then Some (Decimal.D8 u)
      else if decide (c = 57) then Some (Decimal.D9 u)
      else None
  end.

(** [int(token)] on a token matched by the first group. *)
Definition int_of_token (t : pystr) : option Z :=
  match t with
  | c :: t' =>
      if decide (c = 45) then u ← chars_uint t'; Some (- Z.of_uint u)%Z
      else u ← chars_uint t; Some (Z.of_uint u)
  | [] => None
  end.

(** A number token: an [int] when neither the fraction nor the exponent
    matched, else the float written by the token. *)
Definition match_number (s : pystr) : option (pyval * pystr) :=
  '(integer, s1) ← match_integer s;
  let '(frac, s2) := match_frac s1 in
  let '(exp, s3) := match_exp s2 in
  match frac ++ exp with
  | [] => z ← int_of_token integer; Some (PInt z, s3)
  | _ => Some (PFloat (integer ++ frac ++ exp), s3)
  end.

(** [s[idx:idx+len(p)] == p], returning the text after [p]. *)
Fixpoint starts_with (p s : pystr) : option pystr :=
  match p, s with
  | [], _ => Some s
  | a :: p', b :: s' => if decide (a = b) then starts_with p' s' else None
  | _ :: _, [] => None
  end.

Fixpoint scan_once (fuel : nat) (s : pystr) {struct fuel}
  : option (pyval * pystr) :=
  match fuel with
  | O => None
  | S n =>
      match s with
      | [] => None
      | c :: s1 =>
          if decide (c = 34) then
            '(str, rest) ← scanstring s1; Some (PStr str, rest)
          else if decide (c = 123) then
            match skip_ws s1 with
            | c' :: s2 =>
                if decide (c' = 125) then Some (PDict [], s2)
                else if decide (c' = 34) then JSONObject n s2 []
                else None
            | [] => None
            end
          else if decide (c = 91) then
            match skip_ws s1 with
            | c' :: s2 =>
                if decide (c' = 93) then Some (PList [], s2)
                else JSONArray n (c' :: s2) []
            | [] => None
            end
          else
            match starts_with (lit "null") s with
            | Some rest => Some (PNone, rest)
            | None =>
            match starts_with (lit "true") s with
            | Some rest => Some (PBool true, rest)
            | None =>
            match starts_with (lit "false") s with
            | Some rest => Some (PBool false, rest)
            | None => match_number s
            end end end
      end
  end

(** The loop of [JSONArray], entered at the first character of a term. *)
with JSONArray (fuel : nat) (s : pystr) (values : list pyval) {struct fuel}
  : option (pyval * pystr) :=
  match fuel with
  | O => None
  | S n =>
      '(v, s1) ← scan_once n s;
      match skip_ws s1 with
      | c :: s2 =>
          if decide (c = 93) then Some (PList (values ++ [v]), s2)
          else if decide (c = 44) then JSONArray n (skip_ws s2) (values ++ [v])
          else None
      | [] => None
      end
  end

(** The loop of [JSONObject], entered after the opening quote of a key. *)
with JSONObject (fuel : nat) (s : pystr) (pairs : list (pystr * pyval))
  {struct fuel} : option (pyval * pystr) :=
  match fuel with
  | O => None
  | S n =>
      '(key, s1) ← scanstring s;
      match skip_ws s1 with
      | c :: s2 =>
          if decide (c = 58) then
            '(v, s3) ← scan_once n (skip_ws s2);
            match skip_ws s3 with
            | c' :: s4 =>
                if decide (c' = 125) then
                  Some (PDict (dict_of_pairs (pairs ++ [(key, v)])), s4)
                else if decide (c' = 44) then
                  match skip_ws s4 with
                  | c'' :: s5 =>
                      if decide (c'' = 34) then
                        JSONObject n s5 (pairs ++ [(key, v)])
                      else None
                  | [] => None
                  end
                else None
            | [] => None
            end
          else None
      | [] => None
      end
  end.

(** [json.loads(s)]: leading whitespace, one value, trailing whitespace,
    then the end of the text. *)
Definition loads (s : pystr) : option pyval :=
  '(v, rest) ← scan_once (S (length s)) (skip_ws s);
  match skip_ws rest with
  | [] => Some v
  | _ => None
  end.

(** ** The relational store

    What the pipeline uses of SQLAlchemy: an engine whose connections
    run a raw statement ([exec_driver_sql]) or a statement with named
    parameters ([execute]), each of which either changes the state of the
    store or raises; opening a connection can raise as well. *)
Record Engine : Type := {
  store : Type;
  connect : store → outcome ();
  exec_driver_sql : pystr → store → outcome store;
  execute : pystr → pydict → store → outcome store
}.

Inductive level : Type := INFO | WARNING.

(** ** The changelog projection *)

(** The dict literal built for one row of [all_rows] in
    [Database.upload_dynamic]; its entries are evaluated in order, the
    condition of each conditional expression before its branch. *)
Definition flatten_row (r : pyval) : outcome pydict :=
  issue_key ← py_get r (lit "issue_key") PNone;
  a1 ← py_get r (lit "author") PNone;
  author_name ←
    (if is_dict a1 then
       a ← py_get r (lit "author") (PDict []); py_get a (lit "displayName") PNone
     else Ok PNone);
  a2 ← py_get r (lit "author") PNone;
  author_account_id ←
    (if is_dict a2 then
       a ← py_get r (lit "author") (PDict []); py_get a (lit "accountId") PNone
     else Ok PNone);
  created ← py_get r (lit "created") PNone;
  i1 ← py_get r (lit "items") PNone;
  field ←
    (if is_list i1 then
       its ← py_get r (lit "items") (PList [PDict []]);
       it ← py_getitem_0 its; py_get it (lit "field") PNone
     else Ok PNone);
  i2 ← py_get r (lit "items") PNone;
  from ←
    (if is_list i2 then
       its ← py_get r (lit "items") (PList [PDict []]);
       it ← py_getitem_0 its; py_get it (lit "fromString") PNone
     else Ok PNone);
  i3 ← py_get r (lit "items") PNone;
  to ←
    (if is_list i3 then
       its ← py_get r (lit "items") (PList [PDict []]);
       it ← py_getitem_0 its; py_get it (lit "toString") PNone
     else Ok PNone);
  Ok [ (lit "issue_key", issue_key);
       (lit "author_name", author_name);
       (lit "author_account_id", author_account_id);
       (lit "created", created);
       (lit "field", field);
       (lit "from", from);
       (lit "to", to) ].

(** ** Gathering the rows of one target

    [r["issue_key"] = issue["key"]] changes the sub-record inside the
    document it was found in, and [all_rows] holds that same object.  The
    documents are trees (they come from [json.loads]), so the store of
    objects is the list of documents itself: the loops return the
    documents as they are after the assignments, next to the rows
    gathered.  The value of [issue["key"]] is shared by the rows and the
    document; no assignment changes it as long as the path does not go
    through the entry [key] of the document, which is the case for the
    paths of [DYNAMIC_TABLES].  (Along a path through [key] the
    assignment would make a row refer to a value that contains the row
    itself, which a tree does not represent.) *)

(** The inner loop over the rows found in one document: the rows after
    the loop, and the rows appended to [all_rows]. *)
Fixpoint tag_rows (issue : pyval) (rows : list pyval)
  : list pyval * outcome (list pyval) :=
  match rows with
  | [] => ([], Ok [])
  | r :: rows' =>
      match r with
      | PDict d =>
          match py_getitem_key issue (lit "key") with
          | Raise e => (rows, Raise e)
          | Ok k =>
              let r' := PDict (dict_set d (lit "issue_key") k) in
              let '(rs, res) := tag_rows issue rows' in
              (r' :: rs, gathered ← res; Ok (r' :: gathered))
          end
      | _ => let '(rs, res) := tag_rows issue rows' in (r :: rs, res)
      end
  end.

(** The document after the value reached by [extract_path] along [segs]
    has become [new]; a document in which the traversal does not reach a
    value is unchanged. *)
Fixpoint store_segments (obj : pyval) (segs : list pystr) (new : pyval)
  : pyval :=
  match segs with
  | [] => new
  | p :: segs' =>
      match obj with
      | PDict d =>
          match dict_lookup d p with
          | Some child =>
              if is_none child then obj
              else PDict (dict_set d p (store_segments child segs' new))
          | None => obj
          end
      | _ => obj
      end
  end.

(** The body of the loop over the documents, for one document. *)
Definition gather_issue (path : pystr) (issue : pyval)
  : pyval * outcome (list pyval) :=
  match extract_path issue path with
  | Raise e => (issue, Raise e)
  | Ok (PList rows) =>
      let '(rows', res) := tag_rows issue rows in
      (store_segments issue (split_at DOT path) (PList rows'), res)
  | Ok _ => (issue, Ok [])
  end.

Fixpoint gather (path : pystr) (issues : list pyval)
  : list pyval * outcome (list pyval) :=
  match issues with
  | [] => ([], Ok [])
  | issue :: rest =>
      match gather_issue path issue with
      | (issue', Raise e) => (issue' :: rest, Raise e)
      | (issue', Ok rows) =>
          let '(rest', res) := gather path rest in
          (issue' :: rest', all ← res; Ok (rows ++ all))
      end
  end.

(** ** The statements *)

Definition create_table_sql (table : pystr) (columns : list pystr) : pystr :=
  let cols_sql :=
    join (lit ", ")
         (map (λ c, [DQUOTE] ++ c ++ [DQUOTE] ++ lit " TEXT") columns) in
  lit "DROP TABLE IF EXISTS " ++ [DQUOTE] ++ table ++ [DQUOTE] ++
  lit "; CREATE TABLE " ++ [DQUOTE] ++ table ++ [DQUOTE] ++
  lit " (" ++ cols_sql ++ lit ");".

Definition insert_sql (table : pystr) (columns : list pystr) : pystr :=
  let placeholders := join (lit ",") (map (λ c, lit ":" ++ c) columns) in
  let col_sql :=
    join (lit ",") (map (λ c, [DQUOTE] ++ c ++ [DQUOTE]) columns) in
  lit "INSERT INTO " ++ [DQUOTE] ++ table ++ [DQUOTE] ++
  lit " (" ++ col_sql ++ lit ") VALUES (" ++ placeholders ++ lit ")".

(** The value bound for column [c] of row [r]. *)
Definition bind_value (r : pyval) (c : pystr) : outcome pyval :=
  v ← py_get r c PNone;
  Ok (if is_dict v || is_list v then PStr (dumps v) else v).

(** The loop that fills [clean]. *)
Fixpoint clean_columns (r : pyval) (columns : list pystr) (clean : pydict)
  : outcome pydict :=
  match columns with
  | [] => Ok clean
  | c :: cs => v ← bind_value r c; clean_columns r cs (dict_set clean c v)
  end.

(** ** The pipeline, over the state of the run *)

Section Pipeline.

Context (E : Engine).

(** The state a run works on: the store, the log written so far and the
    documents [issues_json] refers to. *)
Record world : Type := World {
  db : store E;
  log : list (level * pystr);
  documents : list pyval
}.

Definition M (A : Type) : Type := world → outcome A * world.

#[export] Instance M_ret : MRet M := λ A a w, (Ok a, w).
#[export] Instance M_bind : MBind M := λ A B f m w,
  match m w with
  | (Ok a, w') => f a w'
  | (Raise e, w') => (Raise e, w')
  end.

Definition lift {A} (o : outcome A) : M A := λ w, (o, w).

Definition logger (lv : level) (msg : pystr) : M () := λ w,
  (Ok (), World (db w) (log w ++ [(lv, msg)]) (documents w)).

(** A statement run on the connection. *)
Definition on_store (f : store E → outcome (store E)) : M () := λ w,
  match f (db w) with
  | Ok s => (Ok (), World s (log w) (documents w))
  | Raise e => (Raise e, w)
  end.

(** [with engine.begin() as conn: body]: a connection is opened, the
    body runs in one transaction, which is committed when the body
    returns and rolled back when it raises; the exception goes on. *)
Definition begin {A} (body : M A) : M A := λ w,
  match connect E (db w) with
  | Raise e => (Raise e, w)
  | Ok _ =>
      match body w with
      | (Ok a, w') => (Ok a, w')
      | (Raise e, w') => (Raise e, World (db w) (log w') (documents w'))
      end
  end.

Definition drop_and_create_table (table : pystr) (columns : list pystr)
  : M () :=
  begin (on_store (exec_driver_sql E (create_table_sql table columns)));;
  logger INFO (lit "Created table " ++ table).

(** The body of the loop over the rows. *)
Definition insert_row (table : pystr) (columns : list pystr) (r : pyval)
  : M () :=
  clean ← lift (clean_columns r columns []);
  on_store (execute E (insert_sql table columns) clean).

Fixpoint insert_loop (table : pystr) (columns : list pystr)
  (rows : list pyval) : M () :=
  match rows with
  | [] => mret ()
  | r :: rows' => insert_row table columns r;; insert_loop table columns rows'
  end.

Definition insert_rows (table : pystr) (columns : list pystr)
  (rows : list pyval) : M () :=
  begin (insert_loop table columns rows).

Definition gather_rows (path : pystr) : M (list pyval) := λ w,
  let '(docs', res) := gather path (documents w) in
  (res, World (db w) (log w) docs').

(** The part of the loop body that builds and loads the flat table. *)
Definition upload_flat (all_rows : list pyval) : M () :=
  flat_rows ← lift (mapM flatten_row all_rows);
  let flat_cols :=
    match flat_rows with
    | r0 :: _ => dict_keys r0
    | [] => []
    end in
  match flat_rows with
  | [] => mret ()
  | _ =>
      drop_and_create_table (lit "jira_changelog_flat") flat_cols;;
      insert_rows (lit "jira_changelog_flat") flat_cols (map PDict flat_rows);;
      logger INFO (lit "Uploaded flattened " ++
                   int_repr (Z.of_nat (length flat_rows)) ++
                   lit " rows to jira_changelog_flat")
  end.

(** The body of the loop of [Database.upload_dynamic] for one entry of
    the table of targets. *)
Definition upload_target (target : pystr * pystr) : M () :=
  let '(table, path) := target in
  logger INFO (lit "Extracting dynamic table " ++ table ++
               lit " from " ++ path);;
  all_rows ← gather_rows path;
  match all_rows with
  | [] => logger WARNING (lit "No rows for " ++ table)
  | _ =>
      let cols := infer_columns all_rows in
      drop_and_create_table table cols;;
      insert_rows table cols all_rows;;
      if decide (table = lit "jira_changelog") then upload_flat all_rows
      else mret ()
  end.

Fixpoint upload_targets (targets : list (pystr * pystr)) : M () :=
  match targets with
  | [] => mret ()
  | t :: ts => upload_target t;; upload_targets ts
  end.

Definition upload_dynamic : M () := upload_targets DYNAMIC_TABLES.

End Pipeline.

Arguments World {E} db log documents.
Arguments db {E} w.
Arguments log {E} w.
Arguments documents {E} w.

(** ** Notions used to state the properties *)

(** The value a path selects in a document: every segment is looked up
    in a mapping, is present there, and is not null. *)
Fixpoint resolve_segments (obj : pyval) (segs : list pystr) : option pyval :=
  match segs with
  | [] => Some obj
  | p :: segs' =>
      match obj with
      | PDict d =>
          match dict_lookup d p with
          | Some PNone => None
          | Some v => resolve_segments v segs'
          | None => None
          end
      | _ => None
      end
  end.

(** A structured value: an object or an array. *)
Definition nested (v : pyval) : bool := is_dict v || is_list v.

(** The value to bind for column [c] of a row with entries [d]: null for
    a missing column, the JSON text of a structured value, the value
    itself otherwise. *)
Definition bound (d : pydict) (c : pystr) : pyval :=
  match dict_lookup d c with
  | None => PNone
  | Some v => if nested v then PStr (dumps v) else v
  end.

(** The text of a finite float: a number token with a fraction or an
    exponent. *)
Definition is_float_repr (r : pystr) : bool :=
  match match_number r with
  | Some (PFloat r', []) => bool_decide (r' = r)
  | _ => false
  end.

(** The values [json.loads] can build: the keys of a dict are distinct
    and a float is a float. *)
Fixpoint json_tree (v : pyval) : bool :=
  match v with
  | PFloat r => is_float_repr r
  | PList l => forallb json_tree l
  | PDict d =>
      bool_decide (NoDup d.*1) && forallb (λ kv, json_tree kv.2) d
  | _ => true
  end.

(** The text after a value inside an array or an object, or after the
    whole text: nothing, a comma or a closing bracket. *)
Definition delimited (rest : pystr) : Prop :=
  match rest with
  | [] => True
  | c :: _ => c = 44 ∨ c = 93 ∨ c = 125
  end.

(** Enough fuel for [scan_once] to read back the text of a value. *)
Fixpoint need (v : pyval) : nat :=
  match v with
  | PList l => S (list_sum (map (λ x, S (need x)) l))
  | PDict d => S (list_sum (map (λ kv, S (need kv.2)) d))
  | _ => 1
  end.

(** The row [r] with its [issue_key] set, as the assignment leaves it. *)
Definition tagged (k : pyval) (r : pyval) : pyval :=
  match r with
  | PDict d => PDict (dict_set d (lit "issue_key") k)
  | _ => r
  end.

(** An engine for examples: its state is the journal of the statements
    it has accepted; it rejects the raw statements selected by [bad_ddl]
    and the parameter sets selected by [bad_row]. *)
Definition journal_engine (bad_ddl : pystr → bool) (bad_row : pydict → bool)
  : Engine :=
  {| store := list (pystr * pydict);
     connect := λ _, Ok ();
     exec_driver_sql := λ sql st,
       if bad_ddl sql then Raise (DBAPIError 1) else Ok (st ++ [(sql, [])]);
     execute := λ sql params st,
       if bad_row params then Raise (DBAPIError 2)
       else Ok (st ++ [(sql, params)]) |}.

(** An engine whose connections cannot be opened. *)
Definition offline_engine : Engine :=
  {| store := ();
     connect := λ _, Raise (DBAPIError 0);
     exec_driver_sql := λ _ st, Ok st;
     execute := λ _ _ st, Ok st |}.

(** The first character of the text of a value is neither whitespace
    nor a closing bracket. *)
Definition value_start (c : codepoint) : Prop :=
  is_ws c = false ∧ c ≠ 93.

(** The text of one member of an object. *)
Definition member_text (kv : pystr * pyval) : pystr :=
  encode_basestring kv.1 ++ lit ": " ++ dumps kv.2.

(** The decoder reads the text of [v] back, whatever delimited text
    follows, with at least [need v] of fuel. *)
Definition reads_back (v : pyval) : Prop :=
  ∀ (fuel : nat) rest, (need v ≤ fuel)%nat → delimited rest →
    scan_once fuel (dumps v ++ rest) = Some (v, rest).

(** [v.get(k)] when [v] is a mapping, null otherwise. *)
Definition field_of (v : pyval) (k : pystr) : pyval :=
  match v with
  | PDict a => default PNone (dict_lookup a k)
  | _ => PNone
  end.

Definition lookup_or_none (d : pydict) (k : pystr) : pyval :=
  default PNone (dict_lookup d k).

(** The projection as a function of the values it reads in the row:
    [item] is the result of [items[0]], used when [items] is a list. *)
Definition flat_of (issue_key author created : pyval) (item : outcome pyval)
  (is_items : bool) : outcome pydict :=
  field ← (if is_items then it ← item; py_get it (lit "field") PNone else Ok PNone);
  from ← (if is_items then it ← item; py_get it (lit "fromString") PNone else Ok PNone);
  to ← (if is_items then it ← item; py_get it (lit "toString") PNone else Ok PNone);
  Ok [ (lit "issue_key", issue_key);
       (lit "author_name", field_of author (lit "displayName"));
       (lit "author_account_id", field_of author (lit "accountId"));
       (lit "created", created);
       (lit "field", field);
       (lit "from", from);
       (lit "to", to) ].

(** A row with a nested value, and an engine that accepts everything. *)
Definition example_row : pydict :=
  [ (lit "id", PStr (lit "10"));
    (lit "items", PList [ PDict [ (lit "field", PStr [233; 10]);
                                  (lit "n", PInt (-7)) ];
                          PFloat (lit "1.5e-07"); PNone ]) ].

Definition example_columns : list pystr :=
  [lit "items"; lit "id"; lit "absent"].

Definition quiet_engine : Engine := journal_engine (λ _, false) (λ _, false).

(** Scenario C of the specification: one history entry with two changed
    items. *)
Definition example_item_status : pyval :=
  PDict [ (lit "field", PStr (lit "status"));
          (lit "fromString", PStr (lit "Open"));
          (lit "toString", PStr (lit "Done")) ].

Definition example_item_priority : pyval :=
  PDict [ (lit "field", PStr (lit "priority"));
          (lit "fromString", PStr (lit "Low"));
          (lit "toString", PStr (lit "High")) ].

Definition example_history : pydict :=
  [ (lit "id", PStr (lit "100"));
    (lit "author", PDict [ (lit "displayName", PStr (lit "Ana"));
                           (lit "accountId", PStr (lit "a1")) ]);
    (lit "created", PStr (lit "2024-01-01"));
    (lit "items", PList [example_item_status; example_item_priority]);
    (lit "issue_key", PStr (lit "X-1")) ].

(** Scenario A of the specification, with a sub-record that already
    carries an [issue_key] and with one history entry. *)
Definition example_issue : pyval :=
  PDict [ (lit "key", PStr (lit "X-1"));
          (lit "fields",
            PDict [ (lit "subtasks",
                      PList [ PDict [ (lit "id", PStr (lit "10"));
                                      (lit "summary", PStr (lit "a")) ];
                              PDict [ (lit "id", PStr (lit "11"));
                                      (lit "issue_key", PStr (lit "OLD-9")) ] ]) ]);
          (lit "changelog",
            PDict [ (lit "histories",
                      PList [ PDict [ (lit "id", PStr (lit "100"));
                                      (lit "items", PList [example_item_status;
                                                           example_item_priority]) ] ]) ]) ].

(** A document without sub-tasks and without history (scenario B). *)
Definition example_bare_issue : pyval :=
  PDict [ (lit "key", PStr (lit "X-2")); (lit "fields", PDict []) ].

(** An engine that rejects every raw statement, and one that rejects the
    row whose [id] is [11]. *)
Definition rejecting_engine : Engine := journal_engine (λ _, true) (λ _, false).

Definition picky_engine : Engine :=
  journal_engine (λ _, false)
    (λ params, match dict_lookup params (lit "id") with
               | Some (PStr s) => bool_decide (s = lit "11")
               | _ => false
               end).

(** A traversal misses: some segment is looked up in a value that is
    not a mapping, or is absent from the mapping, or maps to null. *)
Inductive misses : pyval → list pystr → Prop :=
| miss_not_mapping obj p segs :
    is_dict obj = false → misses obj (p :: segs)
| miss_absent d p segs :
    dict_lookup d p = None → misses (PDict d) (p :: segs)
| miss_null d p segs :
    dict_lookup d p = Some PNone → misses (PDict d) (p :: segs)
| miss_later d p v segs :
    dict_lookup d p = Some v → misses v segs → misses (PDict d) (p :: segs).

(** How a conforming store reads a delimited identifier, entered after
    its opening quote: up to the next quote, where two quotes in a row
    stand for one quote of the name. *)
Fixpoint read_identifier (s : pystr) : option (pystr * pystr) :=
  match s with
  | [] => None
  | c :: s' =>
      if decide (c = DQUOTE) then
        match s' with
        | c' :: s'' =>
            if decide (c' = DQUOTE) then
              '(name, rest) ← read_identifier s''; Some (DQUOTE :: name, rest)
            else Some ([], s')
        | [] => Some ([], [])
        end
      else '(name, rest) ← read_identifier s'; Some (c :: name, rest)
  end.

(** ** The static core table *)

(** The truth value of a value, as [or] and [if] take it. *)
Definition truthy (v : pyval) : bool :=
  match v with
  | PNone => false
  | PBool b => b
  | PInt z => negb (z =? 0)%Z
  | PFloat r => negb (bool_decide (r = lit "0.0" ∨ r = lit "-0.0"))
  | PStr s => negb (bool_decide (s = []))
  | PList l => negb (bool_decide (l = []))
  | PDict d => negb (bool_decide (d = []))
  end.

(** [x or y]. *)
Definition py_or (x y : pyval) : pyval := if truthy x then x else y.

(** [TransformData.make_issue_body]: the entries of [body] in the order
    of the assignments. *)
Definition make_issue_body (issue : pyval) : outcome pydict :=
  f ← py_get issue (lit "fields") (PDict []);
  let body : pydict := [] in
  key ← py_get issue (lit "key") PNone;
  let body := dict_set body (lit "key") key in
  summary ← py_get f (lit "summary") PNone;
  let body := dict_set body (lit "summary") summary in
  st ← py_get f (lit "status") (PDict []);
  status ← py_get st (lit "name") PNone;
  let body := dict_set body (lit "status") status in
  pr ← py_get f (lit "project") (PDict []);
  project ← py_get pr (lit "name") PNone;
  let body := dict_set body (lit "project") project in
  it ← py_get f (lit "issuetype") (PDict []);
  issuetype ← py_get it (lit "name") PNone;
  let body := dict_set body (lit "issuetype") issuetype in
  p ← py_get f (lit "priority") PNone;
  priority ← py_get (py_or p (PDict [])) (lit "name") PNone;
  let body := dict_set body (lit "priority") priority in
  a ← py_get f (lit "assignee") PNone;
  assignee ← py_get (py_or a (PDict [])) (lit "displayName") PNone;
  let body := dict_set body (lit "assignee") assignee in
  created ← py_get f (lit "created") PNone;
  let body := dict_set body (lit "created") created in
  updated ← py_get f (lit "updated") PNone;
  let body := dict_set body (lit "updated") updated in
  Ok body.

(** The list comprehension of [TransformData.construct_dataframe]. *)
Fixpoint issue_list (issues_json : list pyval) : outcome (list pydict) :=
  match issues_json with
  | [] => Ok []
  | issue :: rest =>
      body ← make_issue_body issue;
      bodies ← issue_list rest;
      Ok (body :: bodies)
  end.

(** ** Fetching the issues

    What [FetchJiraIssues] uses of the service: the response to the
    search request for a query and a [startAt], already decoded by
    [r.json()], and the response to the request for one issue, its status
    code and what [r.json()] gives for it.  Each request can raise.  The
    issue is requested at an address built from its key, so the response
    is a function of the key. *)
Record Jira : Type := {
  search : pystr → nat → outcome pyval;
  issue_detail : pyval → outcome (Z * outcome pyval)
}.

Definition results_per_page : nat := 100.

(** [[i["key"] for i in issues]] over the elements of a list. *)
Fixpoint issue_keys (issues : list pyval) : outcome (list pyval) :=
  match issues with
  | [] => Ok []
  | i :: rest =>
      k ← py_getitem_key i (lit "key");
      ks ← issue_keys rest;
      Ok (k :: ks)
  end.

(** The same comprehension over whatever [data.get("issues", [])] is:
    iterating a dict or a string gives strings, which have no string
    index; the other values cannot be iterated. *)
Definition page_keys (issues : pyval) : outcome (list pyval) :=
  match issues with
  | PList l => issue_keys l
  | PDict [] => Ok []
  | PStr [] => Ok []
  | _ => Raise TypeError
  end.

(** [len(issues)]. *)
Definition py_len (v : pyval) : outcome nat :=
  match v with
  | PList l => Ok (length l)
  | PDict d => Ok (length d)
  | PStr s => Ok (length s)
  | _ => Raise TypeError
  end.

(** The first loop of [__fetch_all_results]: [None] when the fuel runs
    out before the loop ends. *)
Fixpoint fetch_keys (fuel : nat) (J : Jira) (jql : pystr) (start_at : nat)
  (keys : list pyval) : option (outcome (list pyval)) :=
  match fuel with
  | O => None
  | S n =>
      match (data ← search J jql start_at;
             issues ← py_get data (lit "issues") (PList []);
             ks ← page_keys issues;
             len ← py_len issues;
             Ok (ks, len)) with
      | Raise e => Some (Raise e)
      | Ok (ks, len) =>
          if decide (len < results_per_page)%nat then Some (Ok (keys ++ ks))
          else fetch_keys n J jql (start_at + len) (keys ++ ks)
      end
  end.

Section Fetch.

(** How an f-string renders a value. *)
Context (format_value : pyval → pystr).

(** The second loop: the lines logged and the issues kept. *)
Fixpoint fetch_details (J : Jira) (keys : list pyval)
  : list (level * pystr) * outcome (list pyval) :=
  match keys with
  | [] => ([], Ok [])
  | key :: rest =>
      match issue_detail J key with
      | Raise e => ([], Raise e)
      | Ok (status_code, body) =>
          if decide (status_code = 200%Z) then
            match body with
            | Raise e => ([], Raise e)
            | Ok issue =>
                let '(lg, res) := fetch_details J rest in
                (lg, arr ← res; Ok (issue :: arr))
            end
          else
            let '(lg, res) := fetch_details J rest in
            ((WARNING, lit "Failed " ++ format_value key ++ lit ": " ++
                       int_repr status_code) :: lg, res)
      end
  end.

(** [__fetch_all_results]: the lines logged and the result. *)
Definition fetch_all_results (fuel : nat) (J : Jira) (jql : pystr)
  : option (list (level * pystr) * outcome (list pyval)) :=
  match fetch_keys fuel J jql 0 [] with
  | None => None
  | Some (Raise e) => Some ([], Raise e)
  | Some (Ok keys) =>
      let '(lg, res) := fetch_details J keys in
      Some ((INFO, lit "Found " ++ int_repr (Z.of_nat (length keys)) ++
                   lit " issues") :: lg, res)
  end.

End Fetch.

(** ** Notions used to state further properties *)

(** The columns of the core table. *)
Definition core_columns : list pystr :=
  [ lit "key"; lit "summary"; lit "status"; lit "project"; lit "issuetype";
    lit "priority"; lit "assignee"; lit "created"; lit "updated" ].

(** The entry [k] of [f] is absent or a mapping. *)
Definition absent_or_mapping (f : pydict) (k : pystr) : bool :=
  match dict_lookup f k with
  | None => true
  | Some v => is_dict v
  end.

(** The entry [k] of [f] is absent, or false as a truth value, or a
    mapping. *)
Definition falsy_or_mapping (f : pydict) (k : pystr) : bool :=
  match dict_lookup f k with
  | None => true
  | Some v => negb (truthy v) || is_dict v
  end.

(** The shape of a document that [make_issue_body] accepts. *)
Definition body_shape (issue : pyval) : bool :=
  match issue with
  | PDict d =>
      match default (PDict []) (dict_lookup d (lit "fields")) with
      | PDict f =>
          absent_or_mapping f (lit "status") &&
          absent_or_mapping f (lit "project") &&
          absent_or_mapping f (lit "issuetype") &&
          falsy_or_mapping f (lit "priority") &&
          falsy_or_mapping f (lit "assignee")
      | _ => false
      end
  | _ => false
  end.

(** A service that holds the issues [all] and answers a search with the
    page of at most [results_per_page] issues from [startAt] on; every
    issue is served with status 200. *)
Definition paged_service (all : list pyval) : Jira :=
  {| search := λ _ start_at,
       Ok (PDict [(lit "issues",
                   PList (take results_per_page (drop start_at all)))]);
     issue_detail := λ key, Ok (200%Z, Ok (PDict [(lit "key", key)])) |}.

(** The document in which [v] sits under the keys [segs], one mapping
    inside the other. *)
Fixpoint nest (segs : list pystr) (v : pyval) : pyval :=
  match segs with
  | [] => v
  | p :: segs' => PDict [(p, nest segs' v)]
  end.

(** A service that answers every search with the same full page. *)
Definition stuck_service : Jira :=
  {| search := λ _ _,
       Ok (PDict [(lit "issues",
                   PList (replicate results_per_page
                            (PDict [(lit "key", PStr (lit "X-1"))])))]);
     issue_detail := λ key, Ok (200%Z, Ok (PDict [(lit "key", key)])) |}.

(** The issue kept for a key: the decoded response when its status is
    200. *)
Definition kept_issue (J : Jira) (key : pyval) : option pyval :=
  match issue_detail J key with
  | Ok (status_code, Ok issue) =>
      if decide (status_code = 200%Z) then Some issue else None
  | _ => None
  end.

(** A service with the two issues [A-1] and [A-3]; the request for any
    other key is answered with status 404. *)
Definition sparse_service : Jira :=
  {| search := λ _ _, Ok (PDict [(lit "issues", PList [])]);
     issue_detail := λ key,
       match key with
       | PStr s =>
           if bool_decide (s = lit "A-1" ∨ s = lit "A-3")
           then Ok (200%Z, Ok (PDict [(lit "key", key)]))
           else Ok (404%Z, Raise TypeError)
       | _ => Ok (404%Z, Raise TypeError)
       end |}.

(** The parameters [insert_rows] binds for a row with the entries [d]:
    one for each column, in the order of the columns. *)
Definition row_params (columns : list pystr) (d : pydict) : pydict :=
  map (λ c, (c, bound d c)) columns.

(** The columns of the flat changelog table. *)
Definition flat_columns : list pystr :=
  [ lit "issue_key"; lit "author_name"; lit "author_account_id";
    lit "created"; lit "field"; lit "from"; lit "to" ].

(** A document without a key, with one sub-task. *)
Definition example_keyless_entries : pydict :=
  [ (lit "fields",
      PDict [ (lit "subtasks",
                PList [ PInt 7; PDict [(lit "id", PStr (lit "10"))] ]) ]) ].

Definition example_keyless_issue : pyval := PDict example_keyless_entries.

(** The fields of an issue without priority, and of one whose status is
    null. *)
Definition example_fields : pydict :=
  [ (lit "summary", PStr (lit "Fix login"));
    (lit "status", PDict [(lit "name", PStr (lit "Open"))]);
    (lit "project", PDict [(lit "name", PStr (lit "Alpha"))]);
    (lit "priority", PNone);
    (lit "assignee", PDict [(lit "displayName", PStr (lit "Ana"))]);
    (lit "created", PStr (lit "2024-01-01")) ].

Definition example_null_status_fields : pydict :=
  [ (lit "summary", PStr (lit "Fix login")); (lit "status", PNone) ].

(** * Properties *)

(** Induction that reaches the elements of a list and the values of a dict. *)
Lemma pyval_nested_ind (P : pyval → Prop) :
  P PNone →
  (∀ b, P (PBool b)) →
  (∀ z, P (PInt z)) →
  (∀ r, P (PFloat r)) →
  (∀ s, P (PStr s)) →
  (∀ l, Forall P l → P (PList l)) →
  (∀ d, Forall (λ kv, P kv.2) d → P (PDict d)) →
  ∀ v, P v.
Proof.
  intros HN HB HI HF HS HL HD.
  fix IH 1. intros [ | b | z | r | s | l | d].
  - exact HN.
  - apply HB.
  - apply HI.
  - apply HF.
  - apply HS.
  - apply HL. induction l as [|x l IHl]; constructor; [apply IH | exact IHl].
  - apply HD. induction d as [|[k x] d IHd]; constructor; [apply IH | exact IHd].
Qed.

(** ** [json.loads] reads back what [json.dumps] writes *)

Lemma unhex4_hex_digit (c : N) :
  c < 32 →
  unhex4 48 48 (hex_digit (c / 16)) (hex_digit (c mod 16)) = Some c.
Proof.
  intros Hc.
  assert (Hin : c ∈ (N.of_nat <$> seq 0 32)).
  { apply list_elem_of_fmap. exists (N.to_nat c). split; [lia|].
    apply elem_of_seq. lia. }
  revert Hin. generalize c. clear. apply Forall_forall. vm_compute.
  repeat constructor.
Qed.

Lemma scanstring_escape (s rest : pystr) :
  scanstring (concat (map escape_char s) ++ 34 :: rest) = Some (s, rest).
Proof.
  induction s as [|c s IH]; [done|].
  cbn [map concat]. rewrite <- app_assoc. unfold escape_char at 1.
  repeat case_decide; subst; try (cbn; rewrite IH; done).
  destruct (c <? 32) eqn:Hlt.
  - apply N.ltb_lt in Hlt. 
    cbn [app scanstring]. rewrite decide_False, decide_True by done.
    rewrite decide_True by done. rewrite unhex4_hex_digit by done.
    replace (high_surrogate c) with false.
    2:{ unfold high_surrogate. symmetry. apply andb_false_intro1. apply N.leb_gt. lia. }
    rewrite IH. done.
  - cbn [app scanstring]. rewrite !decide_False by done. rewrite Hlt, IH. done.
Qed.

Lemma delimited_not_digit c rest : delimited (c :: rest) → is_digit c = false.
Proof. intros [->| [->| ->]]; done. Qed.

Lemma span_digits_app (s rest : pystr) :
  delimited rest →
  span_digits (s ++ rest) = ((span_digits s).1, (span_digits s).2 ++ rest).
Proof.
  intros Hrest. induction s as [|c s IH]; cbn.
  - destruct rest as [|c rest]; [done|]. cbn.
    by rewrite (delimited_not_digit c rest).
  - destruct (is_digit c); [|done]. rewrite IH. by destruct (span_digits s).
Qed.

Lemma uint_chars_digits u : span_digits (uint_chars u) = (uint_chars u, []).
Proof. induction u; cbn; rewrite ?IHu; done. Qed.

Lemma chars_uint_chars u : chars_uint (uint_chars u) = Some u.
Proof. induction u; cbn; rewrite ?IHu; done. Qed.

Lemma pos_to_uint_head p :
  ∃ c s, uint_chars (Pos.to_uint p) = c :: s ∧ is_digit c = true ∧ c ≠ 48.
Proof.
  assert (Decimal.unorm (Pos.to_uint p) = Pos.to_uint p) as Hnorm.
  { pose proof (DecimalPos.Unsigned.to_of (Pos.to_uint p)) as H.
    rewrite DecimalPos.Unsigned.of_to in H. symmetry. exact H. }
  pose proof (DecimalPos.Unsigned.to_uint_nonzero p) as Hnz.
  destruct (Pos.to_uint p) as [|u|u|u|u|u|u|u|u|u|u] eqn:Hu;
    try (eexists _, _; split; [reflexivity|done]).
  - by destruct (DecimalPos.Unsigned.to_uint_nonnil p).
  - exfalso. rewrite DecimalFacts.unorm_D0 in Hnorm. unfold Decimal.unorm in Hnorm.
    destruct (Decimal.nzhead u) eqn:Hh; try discriminate.
    + injection Hnorm as <-. by apply Hnz.
    + by apply (DecimalFacts.nzhead_nonzero u u0).
Qed.

Lemma match_frac_delimited rest : delimited rest → match_frac rest = ([], rest).
Proof. destruct rest as [|c rest]; [done|]. by intros [->| [->| ->]]. Qed.

Lemma match_exp_delimited rest : delimited rest → match_exp rest = ([], rest).
Proof. destruct rest as [|c rest]; [done|]. by intros [->| [->| ->]]. Qed.

Lemma match_unsigned_pos p rest :
  delimited rest →
  match_unsigned (uint_chars (Pos.to_uint p) ++ rest) =
  Some (uint_chars (Pos.to_uint p), rest).
Proof.
  intros Hrest. destruct (pos_to_uint_head p) as (c & s & Heq & Hd & Hc).
  pose proof (uint_chars_digits (Pos.to_uint p)) as Hspan.
  rewrite Heq in *. cbn in *. rewrite decide_False, Hd by done.
  rewrite Hd in Hspan. rewrite span_digits_app by done.
  destruct (span_digits s) as [ds r]. by simplify_eq/=.
Qed.

Lemma of_uint_pos p : Z.of_uint (Pos.to_uint p) = Z.pos p.
Proof. unfold Z.of_uint. by rewrite DecimalPos.Unsigned.of_to. Qed.

Lemma match_integer_int z rest :
  delimited rest → match_integer (int_repr z ++ rest) = Some (int_repr z, rest).
Proof.
  intros Hrest. destruct z as [|p|p]; cbn [int_repr].
  - cbn. by rewrite decide_False, decide_True by done.
  - destruct (pos_to_uint_head p) as (c & s & Heq & Hd & Hc).
    assert (c ≠ 45) as H45 by (intros ->; done).
    pose proof (match_unsigned_pos p rest Hrest) as Hm.
    rewrite Heq in *. cbn [app match_integer] in *.
    by rewrite decide_False by done.
  - cbn [app match_integer]. rewrite decide_True by done.
    by rewrite match_unsigned_pos by done.
Qed.

Lemma int_of_token_repr z : int_of_token (int_repr z) = Some z.
Proof.
  destruct z as [|p|p]; cbn [int_repr].
  - cbn. by rewrite decide_False, decide_True by done.
  - destruct (pos_to_uint_head p) as (c & s & Heq & Hd & Hc).
    assert (c ≠ 45) as H45 by (intros ->; done).
    unfold int_of_token. rewrite Heq, decide_False by done.
    rewrite <- Heq, chars_uint_chars. cbn [mbind option_bind].
    by rewrite of_uint_pos.
  - unfold int_of_token. rewrite decide_True by done.
    rewrite chars_uint_chars. cbn [mbind option_bind]. by rewrite of_uint_pos.
Qed.

Lemma match_number_int z rest :
  delimited rest → match_number (int_repr z ++ rest) = Some (PInt z, rest).
Proof.
  intros Hrest. unfold match_number.
  rewrite match_integer_int by done. cbn [mbind option_bind].
  rewrite match_frac_delimited, match_exp_delimited by done. cbn [app].
  by rewrite int_of_token_repr.
Qed.

Lemma match_unsigned_app s rest i s1 :
  delimited rest → match_unsigned s = Some (i, s1) →
  match_unsigned (s ++ rest) = Some (i, s1 ++ rest).
Proof.
  intros Hrest. destruct s as [|c s]; [done|]. cbn.
  case_decide; [by intros [= <- <-]|].
  destruct (is_digit c); [|done]. rewrite span_digits_app by done.
  destruct (span_digits s). by intros [= <- <-].
Qed.

Lemma match_integer_app s rest i s1 :
  delimited rest → match_integer s = Some (i, s1) →
  match_integer (s ++ rest) = Some (i, s1 ++ rest).
Proof.
  intros Hrest. destruct s as [|c s]; [done|]. cbn [app match_integer].
  case_decide; [|by apply (match_unsigned_app (c :: s))].
  destruct (match_unsigned s) as [[ds r]|] eqn:Hm; [|done].
  rewrite (match_unsigned_app _ _ _ _ Hrest Hm). by intros [= <- <-].
Qed.

Lemma match_frac_app s rest :
  delimited rest →
  match_frac (s ++ rest) = ((match_frac s).1, (match_frac s).2 ++ rest).
Proof.
  intros Hrest. destruct s as [|c s]; [by apply match_frac_delimited|].
  cbn. case_decide; [|done]. rewrite span_digits_app by done.
  by destruct (span_digits s) as [[|d ds] r].
Qed.

Lemma match_exp_app s rest :
  delimited rest →
  match_exp (s ++ rest) = ((match_exp s).1, (match_exp s).2 ++ rest).
Proof.
  intros Hrest. destruct s as [|c s]; [by apply match_exp_delimited|].
  cbn. case_bool_decide; [|done].
  destruct s as [|g t]; cbn.
  - destruct rest as [|g t]; [reflexivity|].
    rewrite bool_decide_eq_false_2
      by (destruct Hrest as [->| [->| ->]]; intros [?|?]; discriminate).
    cbn. by rewrite (delimited_not_digit g t).
  - case_bool_decide.
    + rewrite span_digits_app by done. by destruct (span_digits t) as [[|d ds] r].
    + change (g :: t ++ rest) with ((g :: t) ++ rest).
      rewrite span_digits_app by done.
      by destruct (span_digits (g :: t)) as [[|d ds] r].
Qed.

Lemma match_number_app s rest v s3 :
  delimited rest → match_number s = Some (v, s3) →
  match_number (s ++ rest) = Some (v, s3 ++ rest).
Proof.
  intros Hrest. unfold match_number.
  destruct (match_integer s) as [[i s1]|] eqn:Hi; [|done].
  rewrite (match_integer_app _ _ _ _ Hrest Hi). cbn [mbind option_bind].
  rewrite match_frac_app by done. destruct (match_frac s1) as [frac s2]. cbn [fst snd].
  rewrite match_exp_app by done. destruct (match_exp s2) as [exp s3']. cbn [fst snd].
  destruct (frac ++ exp); [|by intros [= <- <-]].
  destruct (int_of_token i); [|done]. by intros [= <- <-].
Qed.

Lemma match_number_float r rest :
  is_float_repr r → delimited rest →
  match_number (r ++ rest) = Some (PFloat r, rest).
Proof.
  unfold is_float_repr. intros Hr Hrest.
  destruct (match_number r) as [[v s3]|] eqn:Hm; [|done].
  rewrite (match_number_app _ _ _ _ Hrest Hm).
  destruct v; try done. destruct s3; [|done].
  by apply bool_decide_unpack in Hr as ->.
Qed.

(** Unfolding equations of the decoder. *)
Lemma scan_once_S n c s1 :
  scan_once (S n) (c :: s1) =
  if decide (c = 34) then
    '(str, rest) ← scanstring s1; Some (PStr str, rest)
  else if decide (c = 123) then
    match skip_ws s1 with
    | c' :: s2 =>
        if decide (c' = 125) then Some (PDict [], s2)
        else if decide (c' = 34) then JSONObject n s2 []
        else None
    | [] => None
    end
  else if decide (c = 91) then
    match skip_ws s1 with
    | c' :: s2 =>
        if decide (c' = 93) then Some (PList [], s2)
        else JSONArray n (c' :: s2) []
    | [] => None
    end
  else
    match starts_with (lit "null") (c :: s1) with
    | Some rest => Some (PNone, rest)
    | None =>
    match starts_with (lit "true") (c :: s1) with
    | Some rest => Some (PBool true, rest)
    | None =>
    match starts_with (lit "false") (c :: s1) with
    | Some rest => Some (PBool false, rest)
    | None => match_number (c :: s1)
    end end end.
Proof. reflexivity. Qed.

Lemma JSONArray_S n s values :
  JSONArray (S n) s values =
  '(v, s1) ← scan_once n s;
  match skip_ws s1 with
  | c :: s2 =>
      if decide (c = 93) then Some (PList (values ++ [v]), s2)
      else if decide (c = 44) then JSONArray n (skip_ws s2) (values ++ [v])
      else None
  | [] => None
  end.
Proof. reflexivity. Qed.

Lemma JSONObject_S n s pairs :
  JSONObject (S n) s pairs =
  '(key, s1) ← scanstring s;
  match skip_ws s1 with
  | c :: s2 =>
      if decide (c = 58) then
        '(v, s3) ← scan_once n (skip_ws s2);
        match skip_ws s3 with
        | c' :: s4 =>
            if decide (c' = 125) then
              Some (PDict (dict_of_pairs (pairs ++ [(key, v)])), s4)
            else if decide (c' = 44) then
              match skip_ws s4 with
              | c'' :: s5 =>
                  if decide (c'' = 34) then
                    JSONObject n s5 (pairs ++ [(key, v)])
                  else None
              | [] => None
              end
            else None
        | [] => None
        end
      else None
  | [] => None
  end.
Proof. reflexivity. Qed.

Lemma starts_with_app p rest : starts_with p (p ++ rest) = Some rest.
Proof.
  induction p as [|a p IH]; [by destruct rest|].
  cbn. by rewrite decide_True.
Qed.

Lemma starts_with_head a p c s : a ≠ c → starts_with (a :: p) (c :: s) = None.
Proof. intros. cbn. by rewrite decide_False. Qed.

Lemma skip_ws_start c s : is_ws c = false → skip_ws (c :: s) = c :: s.
Proof. intros H. cbn. by rewrite H. Qed.

Lemma is_digit_range c : is_digit c = true → 48 ≤ c ≤ 57.
Proof. unfold is_digit. intros [?%N.leb_le ?%N.leb_le]%andb_prop. lia. Qed.

Lemma number_start c : is_digit c = true ∨ c = 45 → value_start c.
Proof.
  intros Hc. assert (45 ≤ c ≤ 57) as Hr.
  { destruct Hc as [?%is_digit_range| ->]; lia. }
  split.
  - apply bool_decide_eq_false. lia.
  - lia.
Qed.

Lemma match_integer_start s i s1 :
  match_integer s = Some (i, s1) →
  ∃ c s', s = c :: s' ∧ (is_digit c = true ∨ c = 45).
Proof.
  destruct s as [|c s]; [done|]. intros H. exists c, s. split; [done|].
  cbn in H. case_decide; [by right|]. left.
  case_decide; [by subst|]. by destruct (is_digit c).
Qed.

Lemma float_repr_start r :
  is_float_repr r → ∃ c s, r = c :: s ∧ (is_digit c = true ∨ c = 45).
Proof.
  unfold is_float_repr, match_number. intros H.
  destruct (match_integer r) as [[i s1]|] eqn:Hi; [|done].
  by apply match_integer_start in Hi.
Qed.

Lemma int_repr_start z :
  ∃ c s, int_repr z = c :: s ∧ (is_digit c = true ∨ c = 45).
Proof.
  destruct z as [|p|p]; cbn [int_repr].
  - exists 48, []. by split; [|left].
  - destruct (pos_to_uint_head p) as (c & s & -> & Hd & _).
    exists c, s. by split; [|left].
  - eexists _, _. by split; [|right].
Qed.

Lemma dumps_start v :
  json_tree v → ∃ c s, dumps v = c :: s ∧ value_start c.
Proof.
  destruct v as [ | [] | z | r | s | [|x l] | [|kv d]]; intros Hv;
    try (eexists _, _; split; [reflexivity|by split]).
  - destruct (int_repr_start z) as (c & s & Heq & Hc).
    exists c, s. split; [done|]. by apply number_start.
  - destruct (float_repr_start r Hv) as (c & s & Heq & Hc).
    exists c, s. split; [done|]. by apply number_start.
Qed.

Lemma skip_ws_dumps v rest :
  json_tree v → skip_ws (dumps v ++ rest) = dumps v ++ rest.
Proof.
  intros (c & s & -> & Hc & _)%dumps_start. by apply skip_ws_start.
Qed.

Lemma scan_once_number n c s :
  is_digit c = true ∨ c = 45 →
  scan_once (S n) (c :: s) = match_number (c :: s).
Proof.
  intros Hc. assert (45 ≤ c ≤ 57) as Hr.
  { destruct Hc as [?%is_digit_range| ->]; lia. }
  rewrite scan_once_S. rewrite !decide_False by lia.
  change (lit "null") with (110 :: lit "ull").
  change (lit "true") with (116 :: lit "rue").
  change (lit "false") with (102 :: lit "alse").
  rewrite !starts_with_head by lia. done.
Qed.

Lemma dict_set_fresh (d : pydict) k v :
  k ∉ d.*1 → dict_set d k v = d ++ [(k, v)].
Proof.
  induction d as [|[k' v'] d IH]; [done|]. cbn. intros Hk.
  apply not_elem_of_cons in Hk as [Hne Hk].
  rewrite decide_False by done. by rewrite IH.
Qed.

Lemma dict_of_pairs_foldl (acc kvs : pydict) :
  NoDup (acc ++ kvs).*1 →
  foldl (λ d kv, dict_set d kv.1 kv.2) acc kvs = acc ++ kvs.
Proof.
  revert acc. induction kvs as [|[k v] kvs IH]; intros acc Hnd; cbn.
  - by rewrite app_nil_r.
  - rewrite dict_set_fresh.
    + rewrite IH; rewrite <- app_assoc; done.
    + rewrite fmap_app in Hnd. apply NoDup_app in Hnd as (_ & Hdisj & _).
      intros Hin. apply (Hdisj k Hin). by left.
Qed.

Lemma dict_of_pairs_NoDup (d : pydict) : NoDup d.*1 → dict_of_pairs d = d.
Proof. intros. by apply (dict_of_pairs_foldl []). Qed.

Lemma JSONArray_dumps (l : list pyval) :
  Forall reads_back l → forallb json_tree l →
  ∀ x fuel values rest,
    reads_back x → json_tree x →
    (need x + list_sum (map (λ y, S (need y)) l) < fuel)%nat →
    JSONArray fuel
      (dumps x ++ concat (map (λ q, lit ", " ++ q) (map dumps l)) ++ 93 :: rest)
      values
    = Some (PList (values ++ x :: l), rest).
Proof.
  induction l as [|y l IH]; intros Hl Htree x fuel values rest Hx Hxt Hfuel;
    (destruct fuel as [|n]; [lia|]); rewrite JSONArray_S; cbn in Hfuel.
  - cbn [map concat app]. rewrite Hx; [|lia|by right; left].
    cbn [mbind option_bind]. rewrite skip_ws_start by reflexivity.
    by rewrite decide_True.
  - apply Forall_cons in Hl as [Hy Hl]. cbn in Htree.
    apply andb_True in Htree as [Hyt Htree].
    cbn [map concat]. rewrite <- !app_assoc.
    change (lit ", " ++ ?s) with (44 :: 32 :: s).
    rewrite Hx; [|lia|by left]. cbn [mbind option_bind].
    rewrite skip_ws_start by reflexivity.
    rewrite decide_False, decide_True by done.
    change (skip_ws (32 :: ?s)) with (skip_ws s).
    rewrite skip_ws_dumps by done.
    rewrite IH; [|done..|unfold list_sum in *; lia]. by rewrite <- app_assoc.
Qed.

Lemma JSONObject_dumps (d : pydict) :
  Forall (λ kv, reads_back kv.2) d → forallb (λ kv, json_tree kv.2) d →
  ∀ k v fuel pairs rest,
    reads_back v → json_tree v →
    (need v + list_sum (map (λ kv, S (need kv.2)) d) < fuel)%nat →
    JSONObject fuel
      (concat (map escape_char k) ++ 34 :: lit ": " ++ dumps v ++
       concat (map (λ q, lit ", " ++ q) (map member_text d)) ++ 125 :: rest)
      pairs
    = Some (PDict (dict_of_pairs (pairs ++ (k, v) :: d)), rest).
Proof.
  induction d as [|[k' v'] d IH]; intros Hd Htree k v fuel pairs rest Hv Hvt Hfuel;
    (destruct fuel as [|n]; [lia|]); rewrite JSONObject_S; cbn in Hfuel;
    rewrite scanstring_escape; cbn [mbind option_bind];
    change (lit ": " ++ ?s) with (58 :: 32 :: s);
    rewrite skip_ws_start by reflexivity; rewrite decide_True by done;
    change (skip_ws (32 :: ?s)) with (skip_ws s);
    rewrite skip_ws_dumps by done.
  - cbn [map concat app]. rewrite Hv; [|lia|by right; right].
    cbn [mbind option_bind]. rewrite skip_ws_start by reflexivity.
    by rewrite decide_True.
  - apply Forall_cons in Hd as [Hv' Hd]. cbn in Htree.
    apply andb_True in Htree as [Hvt' Htree].
    cbn [map concat]. rewrite <- !app_assoc.
    change (lit ", " ++ ?s) with (44 :: 32 :: s).
    rewrite Hv; [|lia|by left]. cbn [mbind option_bind].
    rewrite skip_ws_start by reflexivity.
    rewrite decide_False, decide_True by done.
    change (skip_ws (32 :: ?s)) with (skip_ws s).
    unfold member_text at 1, encode_basestring. cbn [fst snd].
    rewrite <- !app_assoc. cbn [app].
    rewrite skip_ws_start by reflexivity. rewrite decide_True by done.
    rewrite IH; [|done..|unfold list_sum in *; lia]. by rewrite <- app_assoc.
Qed.

Lemma Forall_modus_ponens {A} (P : A → bool) (Q : A → Prop) (l : list A) :
  Forall (λ x, P x → Q x) l → forallb P l → Forall Q l.
Proof.
  intros HPQ HP%forallb_True. induction HPQ as [|x l Hx _ IH]; [done|].
  apply Forall_cons in HP as [? ?]. constructor; auto.
Qed.

Lemma scan_once_dumps v : json_tree v → reads_back v.
Proof.
  induction v as [ | b | z | r | s | l IHl | d IHd] using pyval_nested_ind;
    intros Hv fuel rest Hfuel Hrest;
    (destruct fuel as [|n]; [cbn in Hfuel; lia|]).
  - cbn [dumps]. change (lit "null" ++ rest) with (110 :: (lit "ull" ++ rest)).
    rewrite scan_once_S, !decide_False by done.
    change (110 :: (lit "ull" ++ rest)) with (lit "null" ++ rest).
    by rewrite starts_with_app.
  - destruct b; cbn [dumps].
    + change (lit "true" ++ rest) with (116 :: (lit "rue" ++ rest)).
      rewrite scan_once_S, !decide_False by done.
      change (lit "null") with (110 :: lit "ull").
      rewrite starts_with_head by done.
      change (116 :: (lit "rue" ++ rest)) with (lit "true" ++ rest).
      by rewrite starts_with_app.
    + change (lit "false" ++ rest) with (102 :: (lit "alse" ++ rest)).
      rewrite scan_once_S, !decide_False by done.
      change (lit "null") with (110 :: lit "ull").
      change (lit "true") with (116 :: lit "rue").
      rewrite !starts_with_head by done.
      change (102 :: (lit "alse" ++ rest)) with (lit "false" ++ rest).
      by rewrite starts_with_app.
  - cbn [dumps]. destruct (int_repr_start z) as (c & s & Heq & Hc).
    rewrite Heq. cbn [app]. rewrite scan_once_number by done.
    change (c :: s ++ rest) with ((c :: s) ++ rest). rewrite <- Heq.
    by apply match_number_int.
  - cbn [dumps]. destruct (float_repr_start r Hv) as (c & s & Heq & Hc).
    rewrite Heq. cbn [app]. rewrite scan_once_number by done.
    change (c :: s ++ rest) with ((c :: s) ++ rest). rewrite <- Heq.
    by apply match_number_float.
  - cbn [dumps]. unfold encode_basestring. rewrite <- !app_assoc. cbn [app].
    rewrite scan_once_S, decide_True by done.
    by rewrite scanstring_escape.
  - destruct l as [|x l].
    + change (dumps (PList []) ++ rest) with (91 :: 93 :: rest).
      rewrite scan_once_S, !decide_False, decide_True by done.
      rewrite skip_ws_start by reflexivity. by rewrite decide_True.
    + apply Forall_cons in IHl as [IHx IHl]. cbn in Hv, Hfuel.
      apply andb_True in Hv as [Hx Hl].
      cbn [dumps]. unfold join. cbn [map]. rewrite <- !app_assoc. cbn [app].
      rewrite scan_once_S, !decide_False, decide_True by done.
      rewrite skip_ws_dumps by done.
      destruct (dumps_start x Hx) as (c & s & Heq & _ & Hc).
      rewrite Heq. cbn [app]. rewrite decide_False by done.
      change (c :: s ++ ?t) with ((c :: s) ++ t). rewrite <- Heq.
      apply (JSONArray_dumps l (Forall_modus_ponens _ _ _ IHl Hl) Hl x n [] rest);
        [by apply IHx|done|unfold list_sum in *; lia].
  - destruct d as [|[k v] d].
    + change (dumps (PDict []) ++ rest) with (123 :: 125 :: rest).
      rewrite scan_once_S, !decide_False, decide_True by done.
      rewrite skip_ws_start by reflexivity. by rewrite decide_True.
    + apply Forall_cons in IHd as [IHv IHd]. cbn in Hv, Hfuel.
      apply andb_True in Hv as [Hnd [Hvt Hd]%andb_True].
      apply bool_decide_unpack in Hnd.
      cbn [dumps]. unfold join. cbn [map fst snd].
      unfold encode_basestring at 1. rewrite <- !app_assoc. cbn [app].
      rewrite scan_once_S, !decide_False, decide_True by done.
      rewrite skip_ws_start by reflexivity.
      rewrite !decide_False, decide_True by done.
      pose proof (JSONObject_dumps d (Forall_modus_ponens (λ kv, json_tree kv.2) _ _ IHd Hd)
                    Hd k v n [] rest (IHv Hvt) Hvt) as Hobj.
      cbn [app] in Hobj. rewrite dict_of_pairs_NoDup in Hobj by done.
      apply Hobj. unfold list_sum in *; lia.
Qed.

Lemma need_tail_length {A} (f : A → pyval) (g : A → pystr) (l : list A) :
  Forall (λ a, need (f a) ≤ length (g a))%nat l →
  (list_sum (map (λ a, S (need (f a))) l)
   ≤ length (concat (map (λ q, lit ", " ++ q) (map g l))))%nat.
Proof.
  induction 1 as [|a l Ha _ IH]; [done|].
  cbn [map concat list_sum foldr]. rewrite !length_app.
  change (length (lit ", ")) with 2%nat. unfold list_sum in *. lia.
Qed.

Lemma need_le_length v : json_tree v → (need v ≤ length (dumps v))%nat.
Proof.
  induction v as [ | b | z | r | s | l IHl | d IHd] using pyval_nested_ind;
    intros Hv;
    try (destruct (dumps_start _ Hv) as (c & t & -> & _); cbn; lia).
  - destruct l as [|x l]; [vm_compute; lia|].
    cbn in Hv. apply andb_True in Hv as [Hx Hl].
    apply Forall_cons in IHl as [IHx IHl]. specialize (IHx Hx).
    pose proof (need_tail_length (λ x, x) dumps l
                  (Forall_modus_ponens _ _ _ IHl Hl)) as Htail.
    cbn beta in Htail.
    cbn [dumps join need map list_sum foldr]. rewrite !length_app.
    cbn [length]. unfold list_sum in *. lia.
  - destruct d as [|[k v] d]; [vm_compute; lia|].
    cbn in Hv. apply andb_True in Hv as [_ [Hx Hd]%andb_True].
    apply Forall_cons in IHd as [IHx IHd]. specialize (IHx Hx). cbn [snd] in IHx.
    pose proof (need_tail_length snd member_text d) as Htail.
    assert (Forall (λ a, need a.2 ≤ length (member_text a))%nat d) as Hm.
    { pose proof (Forall_modus_ponens (λ kv, json_tree kv.2) _ _ IHd Hd) as H.
      eapply Forall_impl; [exact H|]. intros [k' v'] Hle. cbn [snd] in *.
      unfold member_text. rewrite !length_app. cbn [snd]. lia. }
    specialize (Htail Hm).
    cbn [dumps join need map list_sum foldr fst snd]. rewrite !length_app.
    cbn [length]. unfold list_sum, member_text in *.
    assert (∀ a b c d e : nat,
              a ≤ b → c ≤ d → S (S a + c) ≤ 1 + (e + (2 + b) + d + 1))%nat
      as Harith by lia.
    apply Harith; [exact IHx|exact Htail].
Qed.

Lemma loads_dumps v : json_tree v → loads (dumps v) = Some v.
Proof.
  intros Hv. unfold loads.
  pose proof (skip_ws_dumps v [] Hv) as Hws. rewrite app_nil_r in Hws.
  rewrite Hws.
  pose proof (scan_once_dumps v Hv (S (length (dumps v))) []) as Hscan.
  rewrite app_nil_r in Hscan. rewrite Hscan; [done| |done].
  pose proof (need_le_length v Hv). lia.
Qed.

(** ** Path extraction *)

Lemma extract_segments_resolve obj segs :
  extract_segments obj segs =
  Ok (default (PList []) (resolve_segments obj segs)).
Proof.
  revert obj. induction segs as [|p segs IH]; intros obj; [done|].
  destruct obj as [ | b | z | r | s | l | d]; try done.
  cbn. destruct (dict_lookup d p) as [v|]; cbn.
  - destruct v; cbn; try apply IH. done.
  - destruct segs; done.
Qed.

(** C5. [extract_path] returns for every document and every path: the
    value the path selects when every segment is found in a mapping and
    is not null, as it is, and the empty list in every other case. *)
Theorem C5_extract_path_soft (D : pyval) (P : pystr) :
  extract_path D P =
  Ok (default (PList []) (resolve_segments D (split_at DOT P))).
Proof. apply extract_segments_resolve. Qed.

Lemma misses_resolve (obj : pyval) (segs : list pystr) :
  misses obj segs ↔ resolve_segments obj segs = None.
Proof.
  split.
  - induction 1 as [obj p segs Hd|d p segs Hp|d p segs Hp|d p v segs Hp _ IH];
      cbn; rewrite ?Hp; try done.
    + by destruct obj.
    + by destruct v.
  - revert obj. induction segs as [|p segs IH]; intros obj; cbn; [done|].
    destruct obj as [ | | | | | |d]; try (intros _; by constructor).
    destruct (dict_lookup d p) as [v|] eqn:Hp; [|intros _; by apply miss_absent].
    intros Hres. destruct (is_none v) eqn:Hn.
    + destruct v; try done. by apply miss_null.
    + apply (miss_later d p v); [done|]. apply IH. by destruct v.
Qed.

(** Whenever the traversal misses, the result is the empty list. *)
Lemma extract_path_miss (D : pyval) (P : pystr) :
  misses D (split_at DOT P) → extract_path D P = Ok (PList []).
Proof.
  intros Hm%misses_resolve. unfold extract_path.
  by rewrite extract_segments_resolve, Hm.
Qed.

(** ** Column inference *)

Lemma infer_columns_set_foldl (rows : list pyval) (acc : gset pystr) c :
  c ∈ foldl (λ cols r,
               match r with
               | PDict d => set_update cols (dict_keys d)
               | _ => cols
               end) acc rows
  ↔ c ∈ acc ∨ ∃ d, PDict d ∈ rows ∧ c ∈ dict_keys d.
Proof.
  revert acc. induction rows as [|r rows IH]; intros acc; cbn.
  - split; [auto|]. intros [?|(d & Hd & _)]; [done|]. inversion Hd.
  - rewrite IH. destruct r as [ | b | z | f | s | l | d];
      try (split; [intros [?|(d' & Hd & ?)]; [auto|right; exists d'; split; [by right|done]]
                  |intros [?|(d' & Hd & ?)]; [auto|right; exists d'; split; [|done]; by inversion Hd]]).
    unfold set_update. rewrite elem_of_union, elem_of_list_to_set. split.
    + intros [[?|?]|(d' & Hd & ?)]; [auto| |].
      * right. exists d. split; [left|done].
      * right. exists d'. split; [by right|done].
    + intros [?|(d' & Hd & ?)]; [auto|].
      inversion Hd; subst; [left; by right|right; by exists d'].
Qed.

Lemma infer_columns_elem (R : list pyval) (c : pystr) :
  c ∈ infer_columns R ↔ ∃ d, PDict d ∈ R ∧ c ∈ dict_keys d.
Proof.
  unfold infer_columns, infer_columns_set.
  rewrite elem_of_elements, infer_columns_set_foldl.
  split; [intros [H|H]; [by apply not_elem_of_empty in H|done]|by right].
Qed.

Lemma infer_columns_NoDup (R : list pyval) : NoDup (infer_columns R).
Proof. apply (NoDup_elements (infer_columns_set R)). Qed.

(** C6, as the code has it. The column list holds exactly the keys of
    the mapping-typed elements of [R], and it is empty exactly when no
    mapping-typed element of [R] has a key. *)
Theorem C6_infer_columns_union (R : list pyval) :
  (∀ c, c ∈ infer_columns R ↔ ∃ d, PDict d ∈ R ∧ c ∈ dict_keys d) ∧
  (infer_columns R = [] ↔ ∀ d, PDict d ∈ R → d = []).
Proof.
  split; [apply infer_columns_elem|]. split.
  - intros Hnil d Hd. destruct d as [|[k v] d]; [done|].
    assert (k ∈ infer_columns R) as Hk.
    { apply infer_columns_elem. exists ((k, v) :: d). split; [done|]. by left. }
    rewrite Hnil in Hk. inversion Hk.
  - intros Hall. destruct (infer_columns R) as [|c cols] eqn:Heq; [done|].
    assert (c ∈ infer_columns R) as Hc by (rewrite Heq; by left).
    apply infer_columns_elem in Hc as (d & Hd & Hc).
    rewrite (Hall d Hd) in Hc. inversion Hc.
Qed.

(** C6, as stated, fails on a sequence whose only mapping is empty: the
    column list is empty although the sequence has a mapping-typed
    element. *)
Lemma C6_empty_mapping_counterexample :
  ¬ (infer_columns [PDict []] = [] ↔
     ∀ r, r ∈ [PDict []] → is_dict r = false).
Proof.
  intros [H _].
  assert (infer_columns [PDict []] = []) as Hnil by (vm_compute; reflexivity).
  specialize (H Hnil (PDict [])).
  discriminate H. by left.
Qed.

(** Scenario D of the specification: the columns of two rows with the
    keys [a, b] and [b, c]. *)
Lemma infer_columns_scenario_D :
  list_to_set (infer_columns [ PDict [(lit "a", PInt 1); (lit "b", PInt 2)];
                               PDict [(lit "b", PInt 3); (lit "c", PInt 4)] ])
  = ({[ lit "a"; lit "b"; lit "c" ]} : gset pystr).
Proof. by vm_compute. Qed.

(** ** Dictionaries *)

Lemma dict_lookup_set_eq (d : pydict) k v : dict_lookup (dict_set d k v) k = Some v.
Proof.
  induction d as [|[k' v'] d IH]; cbn.
  - by rewrite decide_True.
  - case_decide; cbn; [by rewrite decide_True|by rewrite decide_False].
Qed.

Lemma dict_lookup_set_ne (d : pydict) k k' v :
  k ≠ k' → dict_lookup (dict_set d k v) k' = dict_lookup d k'.
Proof.
  intros Hne. induction d as [|[k0 v0] d IH]; cbn.
  - by rewrite decide_False.
  - case_decide; cbn.
    + subst. by rewrite !decide_False.
    + by rewrite IH.
Qed.

Lemma dict_set_set (d : pydict) k v v' :
  dict_set (dict_set d k v) k v' = dict_set d k v'.
Proof.
  induction d as [|[k0 v0] d IH]; cbn.
  - by rewrite decide_True.
  - case_decide; cbn; [by rewrite decide_True|by rewrite decide_False, IH].
Qed.

Lemma dict_set_same (d : pydict) k v :
  dict_lookup d k = Some v → dict_set d k v = d.
Proof.
  induction d as [|[k0 v0] d IH]; [done|]. cbn.
  case_decide; [by intros [= ->]; subst|]. intros Hd. by rewrite IH.
Qed.

(** ** The values bound by [insert_rows] *)

Lemma bind_value_dict (d : pydict) (c : pystr) :
  bind_value (PDict d) c = Ok (bound d c).
Proof. unfold bind_value, bound, nested. cbn. by destruct (dict_lookup d c). Qed.

Lemma bound_flat (d : pydict) (c : pystr) : nested (bound d c) = false.
Proof.
  unfold bound. destruct (dict_lookup d c) as [v|]; [|done].
  by destruct (nested v) eqn:Hv.
Qed.

Lemma clean_columns_dict (d : pydict) (columns : list pystr) (acc : pydict) :
  clean_columns (PDict d) columns acc =
  Ok (foldl (λ clean c, dict_set clean c (bound d c)) acc columns).
Proof.
  revert acc. induction columns as [|c cs IH]; intros acc; [done|].
  cbn [clean_columns foldl]. rewrite bind_value_dict. cbn. apply IH.
Qed.

Lemma clean_lookup_other (d : pydict) (columns : list pystr) (acc : pydict) c :
  c ∉ columns →
  dict_lookup (foldl (λ clean c, dict_set clean c (bound d c)) acc columns) c
  = dict_lookup acc c.
Proof.
  revert acc. induction columns as [|c' cs IH]; intros acc Hc; [done|].
  apply not_elem_of_cons in Hc as [Hne Hc]. cbn [foldl].
  rewrite IH by done. by apply dict_lookup_set_ne.
Qed.

Lemma clean_lookup (d : pydict) (columns : list pystr) (acc : pydict) c :
  c ∈ columns →
  dict_lookup (foldl (λ clean c, dict_set clean c (bound d c)) acc columns) c
  = Some (bound d c).
Proof.
  revert acc. induction columns as [|c' cs IH]; intros acc Hc; [inversion Hc|].
  cbn [foldl]. destruct (decide (c ∈ cs)) as [Hin|Hnin]; [by apply IH|].
  apply elem_of_cons in Hc as [->|?]; [|done].
  rewrite clean_lookup_other by done. apply dict_lookup_set_eq.
Qed.

Lemma json_tree_lookup (d : pydict) (c : pystr) (v : pyval) :
  json_tree (PDict d) → dict_lookup d c = Some v → json_tree v.
Proof.
  cbn. intros [_ Hd]%andb_True. induction d as [|[k x] d IH]; [done|].
  cbn in *. apply andb_True in Hd as [Hx Hd].
  case_decide; [by intros [= <-]|by apply IH].
Qed.

Lemma escape_char_plain (c : codepoint) : 128 ≤ c → escape_char c = [c].
Proof.
  intros Hc. unfold escape_char. rewrite !decide_False by lia.
  by replace (c <? 32) with false by (symmetry; apply N.ltb_ge; lia).
Qed.

Lemma encode_non_ascii (s : pystr) :
  Forall (λ c, 128 ≤ c) s → encode_basestring s = [DQUOTE] ++ s ++ [DQUOTE].
Proof.
  intros Hs. unfold encode_basestring. do 2 f_equal.
  induction Hs as [|c s Hc _ IH]; [done|].
  cbn [map concat]. by rewrite escape_char_plain, IH.
Qed.

(** C1. For a row that is a tree of JSON values and every column of the
    column list, the parameter set that [insert_rows] passes to the store
    has for the column: null when the row has no such key; the text
    written by [json.dumps(v, ensure_ascii=False)] when the value is an
    object or an array, and [json.loads] reads that text back as the
    value itself; the value unchanged otherwise.  The bound value is
    never an object or an array, and characters outside ASCII are written
    as they are. *)
Theorem C1_insert_rows_binds (E : Engine) (table : pystr)
  (columns : list pystr) (d : pydict) (w : world E) :
  json_tree (PDict d) →
  (∃ clean,
     clean_columns (PDict d) columns [] = Ok clean ∧
     insert_row E table columns (PDict d) w =
       on_store E (execute E (insert_sql table columns) clean) w ∧
     ∀ c, c ∈ columns →
       ∃ b, dict_lookup clean c = Some b ∧ nested b = false ∧
         match dict_lookup d c with
         | None => b = PNone
         | Some v =>
             if nested v then b = PStr (dumps v) ∧ loads (dumps v) = Some v
             else b = v
         end) ∧
  (∀ s, Forall (λ c, 128 ≤ c) s →
        dumps (PList [PStr s]) = lit "[" ++ [DQUOTE] ++ s ++ [DQUOTE] ++ lit "]").
Proof.
  intros Hd. split.
  - eexists. split; [apply clean_columns_dict|]. split.
    + unfold insert_row, lift. cbn. by rewrite clean_columns_dict.
    + intros c Hc. exists (bound d c). split; [by apply clean_lookup|].
      split; [apply bound_flat|]. unfold bound.
      destruct (dict_lookup d c) as [v|] eqn:Hv; [|done].
      destruct (nested v); [|done]. split; [done|].
      apply loads_dumps. by eapply json_tree_lookup.
  - intros s Hs. cbn [dumps join map concat]. rewrite encode_non_ascii by done.
    by rewrite app_nil_r, <- !app_assoc.
Qed.

Lemma C1_insert_rows_binds_witness :
  json_tree (PDict example_row) ∧
  ∃ clean,
    clean_columns (PDict example_row) example_columns [] = Ok clean ∧
    ∀ c, c ∈ example_columns →
      ∃ b, dict_lookup clean c = Some b ∧ nested b = false.
Proof.
  assert (json_tree (PDict example_row)) as Hd by (vm_compute; exact I).
  split; [exact Hd|].
  destruct (C1_insert_rows_binds quiet_engine (lit "t") example_columns
              example_row (World (E := quiet_engine) [] [] []) Hd)
    as [(clean & Hclean & _ & Hb) _].
  exists clean. split; [exact Hclean|].
  intros c Hc. destruct (Hb c Hc) as (b & ? & ? & _). by exists b.
Defined.

(** ** Quoting of identifiers *)

(** C3 fails on a column name that holds a double quote. The statement
    built for the single column named [a" TEXT, "b] is, character for
    character, the statement that creates the two columns [a] and [b]:
    the name is not read as one identifier.  The same holds for the
    column list of the insert statement with the name [a","b]. *)
Theorem C3_double_quote_splits_identifier (table : pystr) :
  create_table_sql table [lit "a" ++ [DQUOTE] ++ lit " TEXT, " ++ [DQUOTE] ++ lit "b"]
  = create_table_sql table [lit "a"; lit "b"]
  ∧ join (lit ",") (map (λ c, [DQUOTE] ++ c ++ [DQUOTE])
                        [lit "a" ++ [DQUOTE] ++ lit "," ++ [DQUOTE] ++ lit "b"])
    = join (lit ",") (map (λ c, [DQUOTE] ++ c ++ [DQUOTE]) [lit "a"; lit "b"]).
Proof. split; reflexivity. Qed.

(** A name without a double quote is read back as one identifier from
    its quoted form, whatever else it holds (a semicolon, a space, a
    dot), when the text that follows does not start with a quote. *)
Lemma read_identifier_quoted (c rest : pystr) :
  DQUOTE ∉ c → head rest ≠ Some DQUOTE →
  read_identifier (c ++ [DQUOTE] ++ rest) = Some (c, rest).
Proof.
  intros Hc Hrest. induction c as [|x c IH]; cbn [app read_identifier].
  - rewrite decide_True by done. destruct rest as [|y rest]; [done|].
    rewrite decide_False; [done|]. intros ->. by apply Hrest.
  - apply not_elem_of_cons in Hc as [Hx Hc].
    rewrite decide_False by done. cbn [app] in IH. by rewrite IH.
Qed.

(** The column name of the failing input of C3 is not: the store reads
    the identifier [a]. *)
Lemma read_identifier_broken (rest : pystr) :
  read_identifier
    ((lit "a" ++ [DQUOTE] ++ lit " TEXT, " ++ [DQUOTE] ++ lit "b") ++
     [DQUOTE] ++ rest)
  = Some (lit "a", lit " TEXT, " ++ [DQUOTE] ++ lit "b" ++ [DQUOTE] ++ rest).
Proof. reflexivity. Qed.

(** ** The changelog projection *)

(** C4 fails on a row whose [items] is an empty list: the projection
    raises [IndexError] instead of giving null fields. *)
Theorem C4_empty_items_raises :
  flatten_row (PDict [ (lit "issue_key", PStr (lit "X-1"));
                       (lit "created", PStr (lit "2024-01-01"));
                       (lit "items", PList []) ])
  = Raise IndexError.
Proof. vm_compute. reflexivity. Qed.

Lemma flatten_row_reads (d : pydict) :
  flatten_row (PDict d) =
  flat_of (lookup_or_none d (lit "issue_key")) (lookup_or_none d (lit "author"))
          (lookup_or_none d (lit "created"))
          (py_getitem_0 (lookup_or_none d (lit "items")))
          (is_list (lookup_or_none d (lit "items"))).
Proof.
  unfold flatten_row, flat_of, lookup_or_none. cbn [py_get mbind outcome_bind].
  destruct (dict_lookup d (lit "author")) as [[]|]; cbn [default is_dict field_of];
  destruct (dict_lookup d (lit "items")) as [i|]; cbn [default];
    try (destruct (is_list i) eqn:Hi); cbn [is_list py_get mbind outcome_bind];
    try reflexivity.
Qed.

Lemma py_getitem_0_cons (x : pyval) (l : list pyval) :
  py_getitem_0 (PList (x :: l)) = Ok x.
Proof. reflexivity. Qed.

(** The parts of C4 that hold: without a list under [items] the fields
    [field], [from] and [to] are null, and without a mapping under
    [author] the two author fields are null. *)
Lemma flatten_row_without_items (d : pydict) :
  is_list (lookup_or_none d (lit "items")) = false →
  flatten_row (PDict d) =
  Ok [ (lit "issue_key", lookup_or_none d (lit "issue_key"));
       (lit "author_name", field_of (lookup_or_none d (lit "author")) (lit "displayName"));
       (lit "author_account_id", field_of (lookup_or_none d (lit "author")) (lit "accountId"));
       (lit "created", lookup_or_none d (lit "created"));
       (lit "field", PNone); (lit "from", PNone); (lit "to", PNone) ].
Proof. intros H. rewrite flatten_row_reads. unfold flat_of. by rewrite H. Qed.

Lemma field_of_not_mapping (a : pyval) (k : pystr) :
  is_dict a = false → field_of a k = PNone.
Proof. by destruct a. Qed.

(** A first element of [items] that is a mapping gives a flat row. *)
Lemma flatten_row_first_item (d : pydict) (it : pydict) (l : list pyval) :
  dict_lookup d (lit "items") = Some (PList (PDict it :: l)) →
  ∃ flat, flatten_row (PDict d) = Ok flat.
Proof.
  intros H. rewrite flatten_row_reads. unfold lookup_or_none at 4 5.
  rewrite H. cbn. by eexists.
Qed.

(** C8. For a changelog row whose [items] list has two or more elements,
    the flat row is the one of the same row with [items] cut down to its
    first element, its [field], [from] and [to] are read from that first
    element, and it is produced whenever the first element is a mapping:
    the later elements contribute nothing. *)
Theorem C8_first_item_only (d : pydict) (x y : pyval) (rest : list pyval) :
  dict_lookup d (lit "items") = Some (PList (x :: y :: rest)) →
  flatten_row (PDict d)
    = flatten_row (PDict (dict_set d (lit "items") (PList [x]))) ∧
  (∀ flat, flatten_row (PDict d) = Ok flat →
     py_get x (lit "field") PNone = Ok (lookup_or_none flat (lit "field")) ∧
     py_get x (lit "fromString") PNone = Ok (lookup_or_none flat (lit "from")) ∧
     py_get x (lit "toString") PNone = Ok (lookup_or_none flat (lit "to"))) ∧
  (is_dict x → ∃ flat, flatten_row (PDict d) = Ok flat).
Proof.
  intros Hitems. rewrite !flatten_row_reads. unfold lookup_or_none.
  rewrite dict_lookup_set_eq, !dict_lookup_set_ne by done. rewrite Hitems.
  cbn [default from_option id is_list]. rewrite !py_getitem_0_cons. split; [done|].
  unfold flat_of. cbn [mbind outcome_bind]. split.
  - intros flat.
    destruct (py_get x (lit "field") PNone) as [f|]; [|done].
    destruct (py_get x (lit "fromString") PNone) as [fr|]; [|done].
    destruct (py_get x (lit "toString") PNone) as [t|]; [|done].
    cbn [mbind outcome_bind]. by intros [= <-].
  - destruct x; try done. intros _. cbn [py_get mbind outcome_bind]. by eexists.
Qed.

Lemma C8_first_item_only_witness :
  dict_lookup example_history (lit "items")
    = Some (PList [example_item_status; example_item_priority]) ∧
  flatten_row (PDict example_history)
    = flatten_row (PDict (dict_set example_history (lit "items")
                                   (PList [example_item_status]))) ∧
  ∃ flat, flatten_row (PDict example_history) = Ok flat.
Proof.
  assert (dict_lookup example_history (lit "items")
          = Some (PList [example_item_status; example_item_priority])) as H
    by reflexivity.
  split; [exact H|].
  destruct (C8_first_item_only example_history example_item_status
              example_item_priority [] H) as (Heq & _ & Hex).
  split; [exact Heq|]. apply Hex. exact I.
Defined.

(** ** Gathering *)

Lemma store_extracted (obj : pyval) (segs : list pystr) (v : pyval) :
  extract_segments obj segs = Ok v → store_segments obj segs v = obj.
Proof.
  revert obj. induction segs as [|p segs IH]; intros obj; cbn.
  - by intros [= ->].
  - destruct obj as [ | | | | | |d]; try done. cbn.
    destruct (dict_lookup d p) as [child|] eqn:Hp; [|done]. cbn.
    destruct (is_none child) eqn:Hn; [done|]. intros Hex.
    by rewrite (IH _ Hex), dict_set_same.
Qed.

Lemma store_not_none (obj : pyval) (segs : list pystr) (v new : pyval) :
  resolve_segments obj segs = Some v → is_none new = false →
  is_none obj = false → is_none (store_segments obj segs new) = false.
Proof.
  destruct segs as [|p segs]; [done|]. cbn.
  destruct obj as [ | | | | | |d]; try done.
  destruct (dict_lookup d p) as [child|]; [|done].
  by destruct (is_none child).
Qed.

Lemma resolve_not_none (obj : pyval) (segs : list pystr) (v : pyval) :
  resolve_segments obj segs = Some v → is_none obj = false → is_none v = false.
Proof.
  revert obj. induction segs as [|p segs IH]; intros obj; cbn.
  - by intros [= ->].
  - destruct obj as [ | | | | | |d]; try done.
    destruct (dict_lookup d p) as [child|]; [|done].
    destruct child; try done; intros H _; by apply (IH _ H).
Qed.

Lemma extract_stored (obj : pyval) (segs : list pystr) (v new : pyval) :
  resolve_segments obj segs = Some v → is_none new = false →
  extract_segments (store_segments obj segs new) segs = Ok new.
Proof.
  revert obj. induction segs as [|p segs IH]; intros obj; cbn; [done|].
  destruct obj as [ | | | | | |d]; try done.
  destruct (dict_lookup d p) as [child|] eqn:Hp; [|done].
  intros Hres Hnew.
  assert (is_none child = false ∧ resolve_segments child segs = Some v)
    as [Hc Hres'] by (by destruct child).
  rewrite Hc. cbn. rewrite dict_lookup_set_eq. cbn.
  rewrite (store_not_none child segs v new) by done.
  by apply IH.
Qed.

Lemma tag_rows_key (issue k : pyval) (rows : list pyval) :
  py_getitem_key issue (lit "key") = Ok k →
  tag_rows issue rows
  = (tagged k <$> rows, Ok (tagged k <$> filter (λ r, is_dict r) rows)).
Proof.
  intros Hk. induction rows as [|r rows IH]; [done|].
  cbn [tag_rows]. rewrite Hk, IH.
  destruct r;
    first [rewrite filter_cons_False by (cbn; exact id)
          |rewrite filter_cons_True by (cbn; exact I)];
    reflexivity.
Qed.

Lemma tag_rows_none (issue : pyval) (rows rows' : list pyval) :
  tag_rows issue rows = (rows', Ok []) → rows' = rows.
Proof.
  revert rows'. induction rows as [|r rows IH]; intros rows'; cbn.
  - by intros [= <-].
  - destruct (tag_rows issue rows) as [rs res] eqn:Ht.
    destruct r; try (intros [= <- ->]; by rewrite (IH rs)).
    destruct (py_getitem_key issue (lit "key")); cbn; [|by intros [=]].
    destruct res; cbn; intros [=].
Qed.

Lemma extract_resolved_list (obj : pyval) (segs : list pystr)
  (r : pyval) (rows : list pyval) :
  extract_segments obj segs = Ok (PList (r :: rows)) →
  resolve_segments obj segs = Some (PList (r :: rows)).
Proof.
  rewrite extract_segments_resolve.
  destruct (resolve_segments obj segs); cbn; [by intros [= ->]|done].
Qed.

Lemma gather_issue_none (path : pystr) (issue issue' : pyval) :
  gather_issue path issue = (issue', Ok []) → issue' = issue.
Proof.
  unfold gather_issue, extract_path.
  destruct (extract_segments issue (split_at DOT path)) as [v|] eqn:Hex; [|done].
  destruct v as [ | | | | |rows| ]; try by intros [= <-].
  destruct (tag_rows issue rows) as [rows' res] eqn:Ht.
  intros [= <- ->]. apply tag_rows_none in Ht as ->.
  by apply store_extracted.
Qed.

Lemma gather_none (path : pystr) (docs docs' : list pyval) :
  gather path docs = (docs', Ok []) → docs' = docs.
Proof.
  revert docs'. induction docs as [|issue docs IH]; intros docs'; cbn.
  - by intros [= <-].
  - destruct (gather_issue path issue) as [issue' [rows|e]] eqn:Hg; [|done].
    destruct (gather path docs) as [rest' [all|e]] eqn:Hr; cbn; [|done].
    intros [= <- Happ]. apply app_eq_nil in Happ as [-> ->].
    apply gather_issue_none in Hg as ->. by rewrite (IH rest').
Qed.

(** C10. For a target of the pipeline and a document with key [k], every
    row gathered from the document has [issue_key] equal to [k]; the rows
    are the sub-records of the document itself, which afterwards holds
    them with the new entry; and the entry replaces whatever [issue_key]
    the sub-record had: the row gathered is the same for every earlier
    value. *)
Theorem C10_issue_key_overwritten (path : pystr) (issue k : pyval)
  (rows : list pyval) :
  path ∈ DYNAMIC_TABLES.*2 →
  py_getitem_key issue (lit "key") = Ok k →
  extract_path issue path = Ok (PList rows) →
  ∃ issue',
    gather_issue path issue
      = (issue', Ok (tagged k <$> filter (λ r, is_dict r) rows)) ∧
    extract_path issue' path = Ok (PList (tagged k <$> rows)) ∧
    (∀ r, r ∈ tagged k <$> filter (λ r, is_dict r) rows →
          py_get r (lit "issue_key") PNone = Ok k) ∧
    (∀ d old, tagged k (PDict (dict_set d (lit "issue_key") old))
              = tagged k (PDict d)).
Proof.
  intros _ Hk Hex. eexists. split; [|split; [|split]].
  - unfold gather_issue. rewrite Hex, (tag_rows_key _ k) by done. reflexivity.
  - unfold extract_path in *. destruct rows as [|r rows].
    + change (tagged k <$> []) with (@nil pyval).
      by rewrite (store_extracted _ _ _ Hex).
    + apply (extract_stored _ _ (PList (r :: rows))); [|done].
      by apply extract_resolved_list.
  - intros r (r0 & -> & [Hd _]%list_elem_of_filter)%list_elem_of_fmap.
    destruct r0; try done. cbn. by rewrite dict_lookup_set_eq.
  - intros d old. cbn. by rewrite dict_set_set.
Qed.

Lemma C10_issue_key_overwritten_witness :
  ∃ issue',
    gather_issue (lit "fields.subtasks") example_issue
      = (issue',
         Ok [ PDict [ (lit "id", PStr (lit "10"));
                      (lit "summary", PStr (lit "a"));
                      (lit "issue_key", PStr (lit "X-1")) ];
              PDict [ (lit "id", PStr (lit "11"));
                      (lit "issue_key", PStr (lit "X-1")) ] ]) ∧
    extract_path issue' (lit "fields.subtasks")
      = Ok (PList [ PDict [ (lit "id", PStr (lit "10"));
                            (lit "summary", PStr (lit "a"));
                            (lit "issue_key", PStr (lit "X-1")) ];
                    PDict [ (lit "id", PStr (lit "11"));
                            (lit "issue_key", PStr (lit "X-1")) ] ]).
Proof.
  destruct (C10_issue_key_overwritten (lit "fields.subtasks") example_issue
              (PStr (lit "X-1"))
              [ PDict [ (lit "id", PStr (lit "10"));
                        (lit "summary", PStr (lit "a")) ];
                PDict [ (lit "id", PStr (lit "11"));
                        (lit "issue_key", PStr (lit "OLD-9")) ] ])
    as (issue' & Hg & Hex & _).
  - vm_compute. left.
  - reflexivity.
  - reflexivity.
  - exists issue'. split; [exact Hg|exact Hex].
Defined.

(** ** The pipeline *)

Section PipelineFacts.

Context (E : Engine).

Lemma bind_run {A B} (m : M E A) (f : A → M E B) (w : world E) :
  (m ≫= f) w =
  match m w with
  | (Ok a, w') => f a w'
  | (Raise e, w') => (Raise e, w')
  end.
Proof. reflexivity. Qed.

Lemma world_eta (w : world E) : World (db w) (log w) (documents w) = w.
Proof. by destruct w. Qed.

Lemma on_store_raise f (w w' : world E) e :
  on_store E f w = (Raise e, w') → w' = w.
Proof. unfold on_store. destruct (f (db w)); by intros [= <-]. Qed.

Lemma on_store_frame f (w w' : world E) (o : outcome ()) :
  on_store E f w = (o, w') → log w' = log w ∧ documents w' = documents w.
Proof. unfold on_store. destruct (f (db w)); by intros [= <- <-]. Qed.

Lemma insert_row_raise table columns r (w w' : world E) e :
  insert_row E table columns r w = (Raise e, w') → w' = w.
Proof.
  unfold insert_row. rewrite bind_run. unfold lift.
  destruct (clean_columns r columns []); [apply on_store_raise|by intros [= <-]].
Qed.

Lemma insert_row_frame table columns r (w w' : world E) (o : outcome ()) :
  insert_row E table columns r w = (o, w') →
  log w' = log w ∧ documents w' = documents w.
Proof.
  unfold insert_row. rewrite bind_run. unfold lift.
  destruct (clean_columns r columns []); [apply on_store_frame|by intros [= <- <-]].
Qed.

Lemma insert_loop_frame table columns rows (w w' : world E) (o : outcome ()) :
  insert_loop E table columns rows w = (o, w') →
  log w' = log w ∧ documents w' = documents w.
Proof.
  revert w. induction rows as [|r rows IH]; intros w; cbn [insert_loop].
  - by intros [= <- <-].
  - rewrite bind_run.
    destruct (insert_row E table columns r w) as [[[]|e] w1] eqn:Hr.
    + apply insert_row_frame in Hr as [Hl Hd]. intros H.
      apply IH in H as [-> ->]. done.
    + apply insert_row_frame in Hr as [? ?]. by intros [= <- <-].
Qed.

Lemma insert_loop_app table columns pre post (w : world E) :
  insert_loop E table columns (pre ++ post) w =
  match insert_loop E table columns pre w with
  | (Ok _, w1) => insert_loop E table columns post w1
  | (Raise e, w1) => (Raise e, w1)
  end.
Proof.
  revert w. induction pre as [|r pre IH]; intros w; [done|].
  cbn [app insert_loop]. rewrite !bind_run.
  destruct (insert_row E table columns r w) as [[[]|e] w1]; [apply IH|done].
Qed.

(** The loop body of [upload_dynamic], case by case on what was gathered. *)
Lemma upload_target_run table path (w : world E) :
  upload_target E (table, path) w =
  let lg := log w ++ [(INFO, lit "Extracting dynamic table " ++ table ++
                             lit " from " ++ path)] in
  match gather path (documents w) with
  | (docs', Raise e) => (Raise e, World (db w) lg docs')
  | (docs', Ok []) =>
      (Ok (), World (db w) (lg ++ [(WARNING, lit "No rows for " ++ table)]) docs')
  | (docs', Ok (r :: rows)) =>
      (drop_and_create_table E table (infer_columns (r :: rows));;
       insert_rows E table (infer_columns (r :: rows)) (r :: rows);;
       if decide (table = lit "jira_changelog") then upload_flat E (r :: rows)
       else mret ())
        (World (db w) lg docs')
  end.
Proof.
  unfold upload_target. rewrite bind_run. unfold logger at 1.
  rewrite bind_run. unfold gather_rows. cbn [db log documents].
  destruct (gather path (documents w)) as [docs' [[|r rows]|e]]; reflexivity.
Qed.

Lemma upload_targets_cons t ts (w : world E) :
  upload_targets E (t :: ts) w =
  match upload_target E t w with
  | (Ok _, w') => upload_targets E ts w'
  | (Raise e, w') => (Raise e, w')
  end.
Proof. reflexivity. Qed.

End PipelineFacts.

(** C9. A target that gathers no row writes its information line and a
    warning to the log and nothing else: the store and the documents are
    as before, and the run goes on with the next target. *)
Theorem C9_empty_target_skipped (E : Engine) (table path : pystr)
  (ts : list (pystr * pystr)) (w : world E) :
  (gather path (documents w)).2 = Ok [] →
  let w' := World (db w)
              (log w ++ [ (INFO, lit "Extracting dynamic table " ++ table ++
                                 lit " from " ++ path);
                          (WARNING, lit "No rows for " ++ table) ])
              (documents w) in
  upload_target E (table, path) w = (Ok (), w') ∧
  upload_targets E ((table, path) :: ts) w = upload_targets E ts w'.
Proof.
  intros Hg w'. assert (upload_target E (table, path) w = (Ok (), w')) as Ht.
  { rewrite upload_target_run.
    destruct (gather path (documents w)) as [docs' res] eqn:Hgather.
    cbn in Hg. subst res. apply gather_none in Hgather as ->.
    cbn. unfold w'. by rewrite <- app_assoc. }
  split; [exact Ht|]. by rewrite upload_targets_cons, Ht.
Qed.

(** C7. When the rows before [r] go in and the insertion of [r] fails,
    [insert_rows] raises that failure whatever rows follow [r], and the
    state of the run is the one it was called in: the store is as
    [drop_and_create_table] left it. *)
Theorem C7_insert_rows_aborts (E : Engine) (table : pystr)
  (columns : list pystr) (pre post : list pyval) (r : pyval)
  (w0 w w1 w2 : world E) (e : exn) :
  drop_and_create_table E table columns w0 = (Ok (), w) →
  connect E (db w) = Ok () →
  insert_loop E table columns pre w = (Ok (), w1) →
  insert_row E table columns r w1 = (Raise e, w2) →
  insert_rows E table columns (pre ++ r :: post) w = (Raise e, w) ∧
  (drop_and_create_table E table columns;;
   insert_rows E table columns (pre ++ r :: post)) w0 = (Raise e, w).
Proof.
  intros Hcreate Hconn Hpre Hr.
  assert (insert_rows E table columns (pre ++ r :: post) w = (Raise e, w)) as Hins.
  { unfold insert_rows, begin. rewrite Hconn, insert_loop_app, Hpre.
    cbn [insert_loop]. rewrite bind_run, Hr.
    apply insert_row_raise in Hr as ->.
    apply insert_loop_frame in Hpre as [-> ->]. by rewrite world_eta. }
  split; [exact Hins|]. by rewrite bind_run, Hcreate.
Qed.

Lemma C9_empty_target_skipped_witness :
  (gather (lit "fields.subtasks") [example_bare_issue]).2 = Ok [] ∧
  upload_target quiet_engine (lit "jira_subtasks", lit "fields.subtasks")
    (World (E := quiet_engine) [] [] [example_bare_issue])
  = (Ok (),
     World (E := quiet_engine) []
       [ (INFO, lit "Extracting dynamic table " ++ lit "jira_subtasks" ++
                lit " from " ++ lit "fields.subtasks");
         (WARNING, lit "No rows for " ++ lit "jira_subtasks") ]
       [example_bare_issue]).
Proof.
  assert ((gather (lit "fields.subtasks") [example_bare_issue]).2 = Ok []) as H
    by reflexivity.
  split; [exact H|].
  exact (proj1 (C9_empty_target_skipped quiet_engine (lit "jira_subtasks")
                  (lit "fields.subtasks") []
                  (World (E := quiet_engine) [] [] [example_bare_issue]) H)).
Defined.

Lemma C7_insert_rows_aborts_witness :
  ∃ w : world picky_engine,
    drop_and_create_table picky_engine (lit "jira_subtasks") [lit "id"]
      (World (E := picky_engine) [] [] []) = (Ok (), w) ∧
    insert_rows picky_engine (lit "jira_subtasks") [lit "id"]
      ([PDict [(lit "id", PStr (lit "10"))]] ++
       PDict [(lit "id", PStr (lit "11"))] ::
       [PDict [(lit "id", PStr (lit "12"))]]) w
    = (Raise (DBAPIError 2), w).
Proof.
  eexists. split; [reflexivity|].
  eapply (proj1 (C7_insert_rows_aborts picky_engine (lit "jira_subtasks")
                   [lit "id"] [PDict [(lit "id", PStr (lit "10"))]]
                   [PDict [(lit "id", PStr (lit "12"))]]
                   (PDict [(lit "id", PStr (lit "11"))])
                   (World (E := picky_engine) [] [] []) _ _ _
                   (DBAPIError 2) eq_refl eq_refl eq_refl eq_refl)).
Defined.

(** C2, as stated, fails: with a store that rejects the statement that
    creates the first table while its connections open normally,
    [upload_dynamic] ends with that exception, and the log holds the
    line of the first target only: nothing was caught or logged, and the
    second target was not started. *)
Lemma C2_failure_not_contained :
  connect rejecting_engine [] = Ok () ∧
  ∃ docs',
    upload_dynamic rejecting_engine
      (World (E := rejecting_engine) [] [] [example_issue])
    = (Raise (DBAPIError 1),
       World (E := rejecting_engine) []
         [ (INFO, lit "Extracting dynamic table jira_subtasks from fields.subtasks") ]
         docs').
Proof. split; [reflexivity|]. eexists. vm_compute. reflexivity. Qed.

(** C2, as the code has it. Nothing in the loop catches an exception:
    when the table of a target cannot be created, or its rows cannot be
    loaded, or the connection cannot be opened, the run ends there with
    that exception and the targets that follow are not processed. *)
Theorem C2_failure_aborts_run (E : Engine) (table path : pystr)
  (ts : list (pystr * pystr)) (w : world E) (docs' : list pyval)
  (r : pyval) (rows : list pyval) (e : exn) :
  gather path (documents w) = (docs', Ok (r :: rows)) →
  let w1 := World (db w)
              (log w ++ [(INFO, lit "Extracting dynamic table " ++ table ++
                                lit " from " ++ path)]) docs' in
  let cols := infer_columns (r :: rows) in
  (∀ w2, drop_and_create_table E table cols w1 = (Raise e, w2) →
         upload_targets E ((table, path) :: ts) w = (Raise e, w2)) ∧
  (∀ w2 w3, drop_and_create_table E table cols w1 = (Ok (), w2) →
            insert_rows E table cols (r :: rows) w2 = (Raise e, w3) →
            upload_targets E ((table, path) :: ts) w = (Raise e, w3)) ∧
  (connect E (db w) = Raise e →
   upload_targets E ((table, path) :: ts) w = (Raise e, w1)).
Proof.
  intros Hg w1 cols.
  assert (∀ w2, drop_and_create_table E table cols w1 = (Raise e, w2) →
                upload_targets E ((table, path) :: ts) w = (Raise e, w2)) as H1.
  { intros w2 Hc. rewrite upload_targets_cons, upload_target_run, Hg.
    cbn zeta. rewrite bind_run. fold w1 cols. by rewrite Hc. }
  split; [exact H1|]. split.
  - intros w2 w3 Hc Hi. rewrite upload_targets_cons, upload_target_run, Hg.
    cbn zeta. rewrite bind_run. fold w1 cols. rewrite Hc.
    rewrite bind_run. by rewrite Hi.
  - intros Hconn. apply H1. unfold drop_and_create_table, begin.
    rewrite bind_run. cbn [db w1]. by rewrite Hconn.
Qed.

Lemma C2_failure_aborts_run_witness :
  ∃ docs' w2,
    (gather (lit "fields.subtasks") [example_issue]).1 = docs' ∧
    upload_targets rejecting_engine
      ((lit "jira_subtasks", lit "fields.subtasks") ::
       [(lit "jira_changelog", lit "changelog.histories")])
      (World (E := rejecting_engine) [] [] [example_issue])
    = (Raise (DBAPIError 1), w2).
Proof.
  eexists _, _. split; [reflexivity|].
  eapply (proj1 (C2_failure_aborts_run rejecting_engine (lit "jira_subtasks")
                   (lit "fields.subtasks")
                   [(lit "jira_changelog", lit "changelog.histories")]
                   (World (E := rejecting_engine) [] [] [example_issue])
                   _ _ _ (DBAPIError 1) eq_refl)).
  reflexivity.
Defined.

(** * Further properties *)

(** ** The static core table *)

Lemma get_name_default (f : pydict) (k n : pystr) :
  py_get (default (PDict []) (dict_lookup f k)) n PNone =
  if absent_or_mapping f k then Ok (field_of (lookup_or_none f k) n)
  else Raise AttributeError.
Proof.
  unfold absent_or_mapping, lookup_or_none.
  by destruct (dict_lookup f k) as [[]|].
Qed.

Lemma get_name_or (f : pydict) (k n : pystr) :
  py_get (py_or (default PNone (dict_lookup f k)) (PDict [])) n PNone =
  if falsy_or_mapping f k then Ok (field_of (lookup_or_none f k) n)
  else Raise AttributeError.
Proof.
  unfold falsy_or_mapping, lookup_or_none, py_or.
  destruct (dict_lookup f k) as [v|]; [|done]. cbn [default from_option id].
  destruct (truthy v) eqn:Ht; [by destruct v|].
  destruct v as [ | | | | | |a]; try done.
  cbn in Ht. apply negb_false_iff, bool_decide_eq_true in Ht as ->. done.
Qed.

(** The body built from the mapping [f] of fields. *)
Lemma make_issue_body_fields (d f : pydict) :
  default (PDict []) (dict_lookup d (lit "fields")) = PDict f →
  make_issue_body (PDict d) =
  if absent_or_mapping f (lit "status") && absent_or_mapping f (lit "project") &&
     absent_or_mapping f (lit "issuetype") && falsy_or_mapping f (lit "priority") &&
     falsy_or_mapping f (lit "assignee")
  then
    Ok [ (lit "key", lookup_or_none d (lit "key"));
         (lit "summary", lookup_or_none f (lit "summary"));
         (lit "status", field_of (lookup_or_none f (lit "status")) (lit "name"));
         (lit "project", field_of (lookup_or_none f (lit "project")) (lit "name"));
         (lit "issuetype", field_of (lookup_or_none f (lit "issuetype")) (lit "name"));
         (lit "priority", field_of (lookup_or_none f (lit "priority")) (lit "name"));
         (lit "assignee",
          field_of (lookup_or_none f (lit "assignee")) (lit "displayName"));
         (lit "created", lookup_or_none f (lit "created"));
         (lit "updated", lookup_or_none f (lit "updated")) ]
  else Raise AttributeError.
Proof.
  intros Hf. unfold make_issue_body.
  change (py_get (PDict d) (lit "fields") (PDict []))
    with (Ok (default (PDict []) (dict_lookup d (lit "fields")))).
  rewrite Hf. cbn [mbind outcome_bind py_get].
  rewrite !get_name_default, !get_name_or.
  destruct (absent_or_mapping f (lit "status")); [|done].
  destruct (absent_or_mapping f (lit "project")); [|done].
  destruct (absent_or_mapping f (lit "issuetype")); [|done].
  destruct (falsy_or_mapping f (lit "priority")); [|done].
  destruct (falsy_or_mapping f (lit "assignee")); [|done].
  reflexivity.
Qed.

Lemma make_issue_body_cases (issue : pyval) :
  if body_shape issue
  then ∃ body, make_issue_body issue = Ok body ∧ dict_keys body = core_columns
  else make_issue_body issue = Raise AttributeError.
Proof.
  destruct issue as [ | | | | | |d]; try done.
  unfold body_shape.
  destruct (default (PDict []) (dict_lookup d (lit "fields"))) as [ | | | | | |f] eqn:Hf;
    try (unfold make_issue_body;
         change (py_get (PDict d) (lit "fields") (PDict []))
           with (Ok (default (PDict []) (dict_lookup d (lit "fields"))));
         by rewrite Hf).
  rewrite (make_issue_body_fields d f Hf).
  destruct (_ && _); [|done]. by eexists.
Qed.

(** X1. [make_issue_body] returns a body with the nine columns of the
    core table, in their order, exactly for the documents of the shape
    [body_shape]; for every other document it raises [AttributeError]. *)
Theorem make_issue_body_shape (issue : pyval) :
  if body_shape issue
  then ∃ body, make_issue_body issue = Ok body ∧ dict_keys body = core_columns
  else make_issue_body issue = Raise AttributeError.
Proof. apply make_issue_body_cases. Qed.

(** X2. The values of the body: the key of the document, the summary and
    the two dates as they are in [fields], and for status, project, issue
    type, priority and assignee the name inside the nested mapping, or
    null when there is no such mapping. *)
Theorem make_issue_body_values (d f body : pydict) :
  default (PDict []) (dict_lookup d (lit "fields")) = PDict f →
  make_issue_body (PDict d) = Ok body →
  body =
    [ (lit "key", lookup_or_none d (lit "key"));
      (lit "summary", lookup_or_none f (lit "summary"));
      (lit "status", field_of (lookup_or_none f (lit "status")) (lit "name"));
      (lit "project", field_of (lookup_or_none f (lit "project")) (lit "name"));
      (lit "issuetype", field_of (lookup_or_none f (lit "issuetype")) (lit "name"));
      (lit "priority", field_of (lookup_or_none f (lit "priority")) (lit "name"));
      (lit "assignee",
       field_of (lookup_or_none f (lit "assignee")) (lit "displayName"));
      (lit "created", lookup_or_none f (lit "created"));
      (lit "updated", lookup_or_none f (lit "updated")) ].
Proof.
  intros Hf. rewrite (make_issue_body_fields d f Hf).
  destruct (_ && _); [by intros [= <-]|done].
Qed.

Lemma make_issue_body_values_witness :
  ∃ body,
    make_issue_body (PDict [ (lit "key", PStr (lit "A-1"));
                             (lit "fields", PDict example_fields) ]) = Ok body ∧
    body = [ (lit "key", PStr (lit "A-1"));
             (lit "summary", PStr (lit "Fix login"));
             (lit "status", PStr (lit "Open"));
             (lit "project", PStr (lit "Alpha"));
             (lit "issuetype", PNone);
             (lit "priority", PNone);
             (lit "assignee", PStr (lit "Ana"));
             (lit "created", PStr (lit "2024-01-01"));
             (lit "updated", PNone) ].
Proof.
  eexists. split; [reflexivity|].
  exact (make_issue_body_values
           [ (lit "key", PStr (lit "A-1")); (lit "fields", PDict example_fields) ]
           example_fields _ eq_refl eq_refl).
Defined.

(** X3. A null status, project or issue type makes [make_issue_body]
    raise, while a null priority or assignee gives a null column. *)
Theorem make_issue_body_null_fields (d f : pydict) :
  default (PDict []) (dict_lookup d (lit "fields")) = PDict f →
  (dict_lookup f (lit "status") = Some PNone ∨
   dict_lookup f (lit "project") = Some PNone ∨
   dict_lookup f (lit "issuetype") = Some PNone →
   make_issue_body (PDict d) = Raise AttributeError) ∧
  (∀ body, make_issue_body (PDict d) = Ok body →
     (dict_lookup f (lit "priority") = Some PNone →
      dict_lookup body (lit "priority") = Some PNone) ∧
     (dict_lookup f (lit "assignee") = Some PNone →
      dict_lookup body (lit "assignee") = Some PNone)).
Proof.
  intros Hf. rewrite (make_issue_body_fields d f Hf). split.
  - unfold absent_or_mapping. intros [H|[H|H]]; rewrite H; cbn [is_dict andb];
      by repeat match goal with |- context [dict_lookup f ?k] =>
                  destruct (dict_lookup f k) as [[]|] end.
  - intros body. destruct (_ && _); [|done]. intros [= <-].
    unfold lookup_or_none. split; intros ->; reflexivity.
Qed.

Lemma make_issue_body_null_fields_witness :
  make_issue_body (PDict [ (lit "key", PStr (lit "A-2"));
                           (lit "fields", PDict example_null_status_fields) ])
  = Raise AttributeError.
Proof.
  exact (proj1 (make_issue_body_null_fields
                  [ (lit "key", PStr (lit "A-2"));
                    (lit "fields", PDict example_null_status_fields) ]
                  example_null_status_fields eq_refl)
               (or_introl eq_refl)).
Defined.

(** X4. [construct_dataframe] builds its list of bodies for all the
    documents or for none: with every document of the accepted shape
    there is one body of nine columns per document, and one document of
    another shape makes the whole list fail with [AttributeError]. *)
Theorem issue_list_all_or_nothing (issues : list pyval) :
  if forallb body_shape issues
  then ∃ bodies, issue_list issues = Ok bodies ∧
                 length bodies = length issues ∧
                 Forall (λ b, dict_keys b = core_columns) bodies
  else issue_list issues = Raise AttributeError.
Proof.
  induction issues as [|issue issues IH]; [by exists []|].
  cbn [forallb issue_list]. pose proof (make_issue_body_cases issue) as Hs.
  destruct (body_shape issue); cbn [andb].
  - destruct Hs as (body & -> & Hk). cbn [mbind outcome_bind].
    destruct (forallb body_shape issues).
    + destruct IH as (bodies & -> & Hlen & Hall). exists (body :: bodies).
      cbn. by rewrite Hlen; auto.
    + by rewrite IH.
  - by rewrite Hs.
Qed.

(** ** Fetching the issues *)

Lemma issue_keys_app (l1 l2 : list pyval) :
  issue_keys (l1 ++ l2) =
  ks1 ← issue_keys l1; ks2 ← issue_keys l2; Ok (ks1 ++ ks2).
Proof.
  induction l1 as [|i l1 IH]; cbn [app issue_keys].
  - cbn. by destruct (issue_keys l2).
  - destruct (py_getitem_key i (lit "key")); [|done]. cbn [mbind outcome_bind].
    rewrite IH. destruct (issue_keys l1); [|done]. cbn.
    by destruct (issue_keys l2).
Qed.

Lemma paged_service_step (all : list pyval) (jql : pystr) (s : nat) :
  (data ← search (paged_service all) jql s;
   issues ← py_get data (lit "issues") (PList []);
   ks ← page_keys issues;
   len ← py_len issues;
   Ok (ks, len))
  = (ks ← issue_keys (take results_per_page (drop s all));
     Ok (ks, length (take results_per_page (drop s all)))).
Proof.
  cbn [search paged_service mbind outcome_bind py_get dict_lookup].
  rewrite decide_True by done. reflexivity.
Qed.

Lemma fetch_keys_paged (all : list pyval) (jql : pystr) (fuel : nat) :
  ∀ s acc ks,
    issue_keys (drop s all) = Ok ks →
    (length (drop s all) < fuel * results_per_page)%nat →
    fetch_keys fuel (paged_service all) jql s acc = Some (Ok (acc ++ ks)).
Proof.
  induction fuel as [|n IH]; intros s acc ks Hks Hfuel; [lia|].
  cbn [fetch_keys]. rewrite paged_service_step.
  rewrite <- (take_drop results_per_page (drop s all)), issue_keys_app in Hks.
  destruct (issue_keys (take results_per_page (drop s all))) as [k1|] eqn:H1;
    [|done].
  destruct (issue_keys (drop results_per_page (drop s all))) as [k2|] eqn:H2;
    [|done].
  cbn in Hks. injection Hks as <-. cbn [mbind outcome_bind].
  rewrite length_take. case_decide as Hlen.
  - rewrite take_ge in H1 by lia. rewrite drop_ge in H2 by lia.
    cbn in H2. injection H2 as <-. by rewrite app_nil_r.
  - rewrite drop_drop in H2. rewrite Nat.min_l by lia.
    rewrite (IH _ _ k2); [by rewrite app_assoc|done|].
    rewrite <- drop_drop, length_drop. unfold results_per_page in *. lia.
Qed.



(** X6. Against a service whose every page is full, the first loop never
    ends: it asks for the next page whatever the number of requests made. *)
Theorem fetch_keys_full_pages (J : Jira) (jql : pystr) :
  (∀ s, ∃ data issues ks len,
      search J jql s = Ok data ∧
      py_get data (lit "issues") (PList []) = Ok issues ∧
      page_keys issues = Ok ks ∧ py_len issues = Ok len ∧
      (results_per_page ≤ len)%nat) →
  ∀ fuel s acc, fetch_keys fuel J jql s acc = None.
Proof.
  intros Hfull fuel. induction fuel as [|n IH]; intros s acc; [done|].
  cbn [fetch_keys].
  destruct (Hfull s) as (data & issues & ks & len & -> & Hi & Hk & Hl & Hlen).
  cbn [mbind outcome_bind]. rewrite Hi. cbn [mbind outcome_bind].
  rewrite Hk. cbn [mbind outcome_bind]. rewrite Hl. cbn [mbind outcome_bind].
  rewrite decide_False by lia. apply IH.
Qed.

Lemma fetch_keys_full_pages_witness :
  fetch_keys 1000 stuck_service (lit "project = A") 0 [] = None.
Proof.
  apply fetch_keys_full_pages. intros s.
  eexists _, _, _, _. repeat split; reflexivity.
Defined.

(** X7. When every request for an issue is answered, the second loop
    keeps, in the order of the keys, the issues answered with status
    200, and logs one warning for each of the other keys. *)
Theorem fetch_details_keeps_ok (format_value : pyval → pystr) (J : Jira)
  (keys : list pyval) :
  (∀ key, key ∈ keys →
     ∃ status_code body,
       issue_detail J key = Ok (status_code, body) ∧
       (status_code = 200%Z → ∃ issue, body = Ok issue)) →
  ∃ lg,
    fetch_details format_value J keys = (lg, Ok (omap (kept_issue J) keys)) ∧
    (length lg + length (omap (kept_issue J) keys) = length keys)%nat ∧
    Forall (λ line, line.1 = WARNING) lg.
Proof.
  induction keys as [|key keys IH]; intros Hall; [by exists []|].
  destruct IH as (lg & Hlg & Hlen & Hw).
  { intros k Hk. apply Hall. by right. }
  destruct (Hall key) as (st & body & Hd & Hbody); [by left|].
  change (omap (kept_issue J) (key :: keys))
    with (match kept_issue J key with
          | Some issue => issue :: omap (kept_issue J) keys
          | None => omap (kept_issue J) keys
          end).
  cbn [fetch_details]. rewrite Hlg, Hd.
  case_decide as Hst.
  - destruct (Hbody Hst) as (issue & ->).
    assert (kept_issue J key = Some issue) as ->.
    { unfold kept_issue. rewrite Hd. by rewrite decide_True. }
    exists lg. cbn [mbind outcome_bind length].
    split; [done|]. split; [lia|done].
  - assert (kept_issue J key = None) as ->.
    { unfold kept_issue. rewrite Hd. destruct body; [|done].
      by rewrite decide_False. }
    eexists. split; [reflexivity|]. split; [cbn [length]; lia|by constructor].
Qed.

Lemma fetch_details_keeps_ok_witness :
  ∃ lg,
    fetch_details (λ _, lit "?") sparse_service
      [PStr (lit "A-1"); PStr (lit "A-2"); PStr (lit "A-3")]
    = (lg, Ok [ PDict [(lit "key", PStr (lit "A-1"))];
                PDict [(lit "key", PStr (lit "A-3"))] ]) ∧
    length lg = 1%nat.
Proof.
  destruct (fetch_details_keeps_ok (λ _, lit "?") sparse_service
              [PStr (lit "A-1"); PStr (lit "A-2"); PStr (lit "A-3")])
    as (lg & Hlg & Hlen & _).
  - intros key Hkey. unfold sparse_service. cbn [issue_detail].
    destruct key as [ | | | |s| | ]; try (eexists _, _; split; [reflexivity|done]).
    case_bool_decide; eexists _, _; (split; [reflexivity|]); [by eexists|done].
  - exists lg. split; [exact Hlg|].
    assert (length (omap (kept_issue sparse_service)
                      [PStr (lit "A-1"); PStr (lit "A-2"); PStr (lit "A-3")])
            = 2%nat) as Hkept by reflexivity.
    rewrite Hkept in Hlen. cbn [length] in Hlen. lia.
Defined.

(** ** More on gathering *)

Lemma tag_rows_raise (issue : pyval) (rows : list pyval) (e : exn) :
  py_getitem_key issue (lit "key") = Raise e →
  Exists (λ r, is_dict r) rows →
  tag_rows issue rows = (rows, Raise e).
Proof.
  intros Hk. induction 1 as [r rows Hr|r rows _ IH]; cbn [tag_rows].
  - destruct r; try done. by rewrite Hk.
  - rewrite IH, Hk. by destruct r.
Qed.

Lemma gather_issue_raise (path : pystr) (issue : pyval) (rows : list pyval)
  (e : exn) :
  py_getitem_key issue (lit "key") = Raise e →
  extract_path issue path = Ok (PList rows) →
  Exists (λ r, is_dict r) rows →
  gather_issue path issue = (issue, Raise e).
Proof.
  intros Hk Hex Hrows. unfold gather_issue. rewrite Hex.
  rewrite (tag_rows_raise issue rows e Hk Hrows).
  by rewrite (store_extracted _ _ _ Hex).
Qed.



Lemma tag_rows_tagged (issue : pyval) (rows rows' gathered : list pyval) :
  tag_rows issue rows = (rows', Ok gathered) →
  Forall (λ r, ∃ d k, r = PDict d ∧ dict_lookup d (lit "issue_key") = Some k)
         gathered.
Proof.
  revert rows' gathered. induction rows as [|r rows IH]; intros rows' gathered;
    cbn [tag_rows].
  - by intros [= _ <-].
  - destruct (tag_rows issue rows) as [rs res] eqn:Ht.
    destruct r as [ | | | | | |d]; try (intros [= _ ->]; by eapply IH).
    destruct (py_getitem_key issue (lit "key")) as [k|]; [|done].
    destruct res as [g|]; cbn; [|done]. intros [= _ <-]. constructor.
    + eexists _, k. split; [done|]. apply dict_lookup_set_eq.
    + by eapply IH.
Qed.

Lemma gather_issue_tagged (path : pystr) (issue issue' : pyval)
  (gathered : list pyval) :
  gather_issue path issue = (issue', Ok gathered) →
  Forall (λ r, ∃ d k, r = PDict d ∧ dict_lookup d (lit "issue_key") = Some k)
         gathered.
Proof.
  unfold gather_issue. destruct (extract_path issue path) as [v|]; [|done].
  destruct v as [ | | | | |rows| ]; try by intros [= _ <-].
  destruct (tag_rows issue rows) as [rows' res] eqn:Ht.
  intros [= _ ->]. by eapply tag_rows_tagged.
Qed.

Lemma gather_tagged (path : pystr) (docs docs' rows : list pyval) :
  gather path docs = (docs', Ok rows) →
  Forall (λ r, ∃ d k, r = PDict d ∧ dict_lookup d (lit "issue_key") = Some k)
         rows.
Proof.
  revert docs' rows. induction docs as [|issue docs IH]; intros docs' rows;
    cbn [gather].
  - by intros [= _ <-].
  - destruct (gather_issue path issue) as [issue' [g|e]] eqn:Hg; [|done].
    destruct (gather path docs) as [rest' [all|e]] eqn:Hr; cbn; [|done].
    intros [= _ <-]. apply Forall_app. split.
    + by eapply gather_issue_tagged.
    + by eapply IH.
Qed.

Lemma dict_lookup_keys (d : pydict) (k : pystr) (v : pyval) :
  dict_lookup d k = Some v → k ∈ dict_keys d.
Proof.
  induction d as [|[k' v'] d IH]; [done|]. cbn.
  case_decide; [subst; intros _; by left|]. intros Hl. right. by apply IH.
Qed.

(** X9. Every row gathered for a target is a mapping with an
    [issue_key] entry, so the table of a target that has rows always has
    the column [issue_key]. *)
Theorem gathered_rows_have_issue_key (path : pystr)
  (docs docs' rows : list pyval) :
  gather path docs = (docs', Ok rows) →
  Forall (λ r, ∃ d k, r = PDict d ∧ dict_lookup d (lit "issue_key") = Some k)
         rows ∧
  (rows ≠ [] → lit "issue_key" ∈ infer_columns rows).
Proof.
  intros Hg. pose proof (gather_tagged _ _ _ _ Hg) as Hall.
  split; [exact Hall|]. intros Hne.
  destruct rows as [|r rows]; [done|].
  apply Forall_cons in Hall as [(d & k & -> & Hk) _].
  apply infer_columns_elem. exists d. split; [by left|].
  by eapply dict_lookup_keys.
Qed.

Lemma gathered_rows_have_issue_key_witness :
  ∃ docs' rows,
    gather (lit "fields.subtasks") [example_issue; example_bare_issue]
      = (docs', Ok rows) ∧
    lit "issue_key" ∈ infer_columns rows.
Proof.
  eexists _, _. split; [reflexivity|].
  refine (proj2 (gathered_rows_have_issue_key (lit "fields.subtasks")
                   [example_issue; example_bare_issue] _ _ eq_refl) _).
  discriminate.
Defined.

(** ** More on loading *)

Lemma dict_set_new (acc : pydict) (c : pystr) (v : pyval) :
  c ∉ dict_keys acc → dict_set acc c v = acc ++ [(c, v)].
Proof. apply dict_set_fresh. Qed.

Lemma clean_fold_params (d : pydict) (columns : list pystr) (acc : pydict) :
  NoDup (dict_keys acc ++ columns) →
  foldl (λ clean c, dict_set clean c (bound d c)) acc columns
  = acc ++ row_params columns d.
Proof.
  revert acc. induction columns as [|c cs IH]; intros acc Hnd; cbn [foldl].
  - by rewrite app_nil_r.
  - assert (c ∉ dict_keys acc) as Hc.
    { apply NoDup_app in Hnd as (_ & Hdisj & _). intros Hin.
      apply (Hdisj c Hin). by left. }
    rewrite dict_set_new by done. rewrite IH.
    + by rewrite <- app_assoc.
    + unfold dict_keys in *. rewrite fmap_app. cbn. by rewrite <- app_assoc.
Qed.

Lemma clean_columns_params (d : pydict) (columns : list pystr) :
  NoDup columns →
  clean_columns (PDict d) columns [] = Ok (row_params columns d).
Proof.
  intros Hnd. rewrite clean_columns_dict.
  by rewrite (clean_fold_params d columns []).
Qed.

Lemma row_params_keys (columns : list pystr) (d : pydict) :
  dict_keys (row_params columns d) = columns.
Proof.
  unfold dict_keys, row_params. induction columns as [|c cs IH]; [done|].
  cbn. by rewrite IH.
Qed.

(** X10. For a row among the rows the columns were inferred from, the
    parameters bound are one per inferred column, in the order of the
    column list, and every key of the row is one of the columns: no
    entry of a row is left out of its table. *)
Theorem inferred_columns_cover_row (rows : list pyval) (d : pydict) :
  PDict d ∈ rows →
  ∃ clean,
    clean_columns (PDict d) (infer_columns rows) [] = Ok clean ∧
    dict_keys clean = infer_columns rows ∧
    ∀ k, k ∈ dict_keys d → k ∈ dict_keys clean.
Proof.
  intros Hd. exists (row_params (infer_columns rows) d).
  split; [apply clean_columns_params, infer_columns_NoDup|].
  rewrite row_params_keys. split; [done|].
  intros k Hk. apply infer_columns_elem. by exists d.
Qed.

Lemma inferred_columns_cover_row_witness :
  ∃ clean,
    clean_columns (PDict example_row)
      (infer_columns [PDict example_history; PDict example_row]) [] = Ok clean ∧
    dict_keys clean = infer_columns [PDict example_history; PDict example_row].
Proof.
  destruct (inferred_columns_cover_row
              [PDict example_history; PDict example_row] example_row)
    as (clean & H1 & H2 & _).
  - apply list_elem_of_In. right. left. reflexivity.
  - exists clean. split; [exact H1|exact H2].
Defined.

Lemma insert_loop_journal (table : pystr) (columns : list pystr)
  (ds : list pydict) (w : world quiet_engine) :
  NoDup columns →
  insert_loop quiet_engine table columns (map PDict ds) w
  = (Ok (),
     World (E := quiet_engine)
       (db w ++ map (λ d, (insert_sql table columns, row_params columns d)) ds)
       (log w) (documents w)).
Proof.
  intros Hnd. revert w. induction ds as [|d ds IH]; intros w.
  - cbn. by rewrite app_nil_r, world_eta.
  - cbn [map insert_loop]. rewrite bind_run. unfold insert_row.
    rewrite bind_run. unfold lift. rewrite clean_columns_params by done.
    unfold on_store. cbn [execute quiet_engine journal_engine].
    rewrite IH. cbn [db log documents]. by rewrite <- app_assoc.
Qed.

Lemma insert_rows_journal (table : pystr) (columns : list pystr)
  (ds : list pydict) (w : world quiet_engine) :
  NoDup columns →
  insert_rows quiet_engine table columns (map PDict ds) w
  = (Ok (),
     World (E := quiet_engine)
       (db w ++ map (λ d, (insert_sql table columns, row_params columns d)) ds)
       (log w) (documents w)).
Proof.
  intros Hnd. unfold insert_rows, begin.
  cbn [connect quiet_engine journal_engine].
  by rewrite insert_loop_journal.
Qed.



(** ** More on the changelog projection *)

Lemma flat_of_keys issue_key author created item is_items flat :
  flat_of issue_key author created item is_items = Ok flat →
  dict_keys flat = flat_columns.
Proof.
  unfold flat_of. destruct is_items.
  - destruct item as [it|]; [|done]. cbn [mbind outcome_bind].
    destruct (py_get it (lit "field") PNone); [|done].
    destruct (py_get it (lit "fromString") PNone); [|done].
    destruct (py_get it (lit "toString") PNone); [|done].
    cbn [mbind outcome_bind]. by intros [= <-].
  - cbn [mbind outcome_bind]. by intros [= <-].
Qed.

(** X12. Every flat row has the same seven columns in the same order,
    whatever the history entry holds, so the flat table has one schema. *)
Theorem flatten_row_fixed_columns (r : pyval) (flat : pydict) :
  flatten_row r = Ok flat → dict_keys flat = flat_columns.
Proof.
  destruct r as [ | | | | | |d]; try done.
  rewrite flatten_row_reads. apply flat_of_keys.
Qed.

Lemma flatten_row_fixed_columns_witness :
  ∃ flat, flatten_row (PDict example_history) = Ok flat ∧
          dict_keys flat = flat_columns.
Proof.
  eexists. split; [reflexivity|].
  exact (flatten_row_fixed_columns (PDict example_history) _ eq_refl).
Defined.

Local Ltac exists_flat H := eexists; rewrite H; reflexivity.

(** X13. What decides whether the projection of a history entry raises
    is its [items] alone: an empty list gives [IndexError], a list whose
    first element is not a mapping gives [AttributeError], and anything
    else (a list that starts with a mapping, another value, no entry)
    gives a flat row. *)
Theorem flatten_row_outcome (d : pydict) :
  match lookup_or_none d (lit "items") with
  | PList [] => flatten_row (PDict d) = Raise IndexError
  | PList (x :: _) =>
      if is_dict x then ∃ flat, flatten_row (PDict d) = Ok flat
      else flatten_row (PDict d) = Raise AttributeError
  | _ => ∃ flat, flatten_row (PDict d) = Ok flat
  end.
Proof.
  pose proof (flatten_row_reads d) as Hr. unfold flat_of in Hr.
  destruct (lookup_or_none d (lit "items")) as [ | | | | |[|x l]| ] eqn:Hi;
    cbn [is_list] in Hr; try (exists_flat Hr).
  - by rewrite Hr.
  - destruct x; cbn [is_dict]; try (by rewrite Hr). exists_flat Hr.
Qed.

(** ** Targets do not disturb each other *)

Lemma store_segments_other (obj : pyval) (p q : pystr) (segs segs' : list pystr)
  (new : pyval) :
  p ≠ q →
  extract_segments (store_segments obj (p :: segs) new) (q :: segs')
  = extract_segments obj (q :: segs').
Proof.
  intros Hne. destruct obj as [ | | | | | |d]; try done.
  cbn [store_segments]. destruct (dict_lookup d p) as [child|]; [|done].
  destruct (is_none child); [done|].
  cbn [extract_segments is_dict negb py_get mbind outcome_bind].
  by rewrite dict_lookup_set_ne.
Qed.

Lemma gather_issue_other (p q : pystr) (segs segs' : list pystr)
  (path1 : pystr) (issue issue' : pyval) (res : outcome (list pyval)) :
  split_at DOT path1 = p :: segs → p ≠ q →
  gather_issue path1 issue = (issue', res) →
  extract_segments issue' (q :: segs') = extract_segments issue (q :: segs').
Proof.
  intros Hsplit Hne. unfold gather_issue.
  destruct (extract_path issue path1) as [v|]; [|by intros [= <- _]].
  destruct v as [ | | | | |rows| ]; try by intros [= <- _].
  destruct (tag_rows issue rows) as [rows' r]. intros [= <- _].
  rewrite Hsplit. by apply store_segments_other.
Qed.

Lemma split_at_nonempty (sep : codepoint) (s : pystr) : split_at sep s ≠ [].
Proof.
  destruct s as [|c s]; [done|]. cbn [split_at].
  case_decide; [done|]. by destruct (split_at sep s).
Qed.

(** X14. Gathering the rows of one target leaves what another path
    selects unchanged when the two paths start with different segments:
    the assignments made for one target are not seen by the extraction
    for the other. *)
Theorem gather_issue_leaves_other_paths (path1 path2 : pystr)
  (issue issue' : pyval) (res : outcome (list pyval)) :
  head (split_at DOT path1) ≠ head (split_at DOT path2) →
  gather_issue path1 issue = (issue', res) →
  extract_path issue' path2 = extract_path issue path2.
Proof.
  intros Hne Hg. unfold extract_path.
  destruct (split_at DOT path1) as [|p segs] eqn:H1.
  { by apply split_at_nonempty in H1. }
  destruct (split_at DOT path2) as [|q segs'] eqn:H2.
  { by apply split_at_nonempty in H2. }
  apply (gather_issue_other p q segs segs' path1 issue issue' res); [done| |done].
  intros ->. by apply Hne.
Qed.

Lemma gather_issue_leaves_other_paths_witness :
  ∃ issue' res,
    gather_issue (lit "fields.subtasks") example_issue = (issue', res) ∧
    extract_path issue' (lit "changelog.histories")
      = extract_path example_issue (lit "changelog.histories").
Proof.
  destruct (gather_issue (lit "fields.subtasks") example_issue)
    as [issue' res] eqn:Hg.
  exists issue', res. split; [reflexivity|].
  apply (gather_issue_leaves_other_paths (lit "fields.subtasks")
           (lit "changelog.histories") example_issue issue' res); [|exact Hg].
  vm_compute. discriminate.
Defined.

(** ** Paths *)

Lemma split_at_plain (s : pystr) : DOT ∉ s → split_at DOT s = [s].
Proof.
  induction s as [|c s IH]; [done|]. intros [Hc Hs]%not_elem_of_cons.
  cbn [split_at]. rewrite decide_False by done. by rewrite IH.
Qed.

Lemma split_at_segment (s rest : pystr) :
  DOT ∉ s → split_at DOT (s ++ DOT :: rest) = s :: split_at DOT rest.
Proof.
  induction s as [|c s IH]; cbn [app split_at].
  - intros _. by rewrite decide_True.
  - intros [Hc Hs]%not_elem_of_cons. rewrite decide_False by done.
    by rewrite IH.
Qed.

Lemma split_at_join (segs : list pystr) :
  segs ≠ [] → Forall (λ s, DOT ∉ s) segs →
  split_at DOT (join [DOT] segs) = segs.
Proof.
  intros Hne Hall. destruct segs as [|s segs]; [done|]. clear Hne.
  revert s Hall. induction segs as [|s' segs IH]; intros s Hall;
    apply Forall_cons in Hall as [Hs Hall].
  - cbn. rewrite app_nil_r. by apply split_at_plain.
  - change (join [DOT] (s :: s' :: segs))
      with (s ++ DOT :: join [DOT] (s' :: segs)).
    rewrite split_at_segment by done. f_equal. by apply (IH s').
Qed.

Lemma extract_segments_nest (segs : list pystr) (v : pyval) :
  is_none v = false → extract_segments (nest segs v) segs = Ok v.
Proof.
  intros Hv. induction segs as [|p segs IH]; [done|].
  cbn [nest extract_segments is_dict negb py_get dict_lookup].
  rewrite decide_True by done. cbn [default from_option id mbind outcome_bind].
  replace (is_none (nest segs v)) with false; [done|].
  by destruct segs.
Qed.

(** X15. A value other than null placed under a chain of keys, none of
    which holds a dot, is what [extract_path] returns for the keys joined
    with dots. *)
Theorem extract_path_nest (segs : list pystr) (v : pyval) :
  segs ≠ [] → Forall (λ s, DOT ∉ s) segs → is_none v = false →
  extract_path (nest segs v) (join [DOT] segs) = Ok v.
Proof.
  intros Hne Hall Hv. unfold extract_path.
  rewrite split_at_join by done. by apply extract_segments_nest.
Qed.

Lemma extract_path_nest_witness :
  extract_path (nest [lit "fields"; lit "sub tasks"; lit ""] (PInt 0))
               (join [DOT] [lit "fields"; lit "sub tasks"; lit ""])
  = Ok (PInt 0).
Proof.
  apply extract_path_nest; [discriminate| |reflexivity].
  apply (bool_decide_unpack
           (Forall (λ s, DOT ∉ s) [lit "fields"; lit "sub tasks"; lit ""])).
  vm_compute. exact I.
Defined.

(** ** The text of nested values *)

(** X16. Two structured values that [insert_rows] stores as the same
    text are the same value: among the values [json.loads] builds the
    encoding loses nothing. *)
Theorem dumps_injective (v1 v2 : pyval) :
  json_tree v1 → json_tree v2 → dumps v1 = dumps v2 → v1 = v2.
Proof.
  intros H1 H2 Heq. apply loads_dumps in H1, H2.
  rewrite Heq in H1. congruence.
Qed.

Lemma dumps_injective_witness :
  json_tree (PList [PInt 1; PStr (lit "1")]) ∧
  PList [PInt 1; PStr (lit "1")] = PList [PInt 1; PStr (lit "1")].
Proof.
  assert (json_tree (PList [PInt 1; PStr (lit "1")])) as H by (by vm_compute).
  split; [exact H|].
  exact (dumps_injective _ _ H H eq_refl).
Defined.

(** ** Whole runs *)

(** X17. When no target gathers a row, the run returns normally, the
    store and the documents are as before, and the log has gained only
    the information line and the warning of each target. *)
Theorem upload_targets_nothing_gathered (E : Engine)
  (ts : list (pystr * pystr)) (w : world E) :
  (∀ t, t ∈ ts → (gather t.2 (documents w)).2 = Ok []) →
  ∃ lg, upload_targets E ts w
        = (Ok (), World (db w) (log w ++ lg) (documents w)) ∧
        Forall (λ line, ∃ t, t ∈ ts ∧
                  (line = (INFO, lit "Extracting dynamic table " ++ t.1 ++
                                 lit " from " ++ t.2) ∨
                   line = (WARNING, lit "No rows for " ++ t.1))) lg.
Proof.
  revert w. induction ts as [|[table path] ts IH]; intros w Hall.
  - exists []. cbn. by rewrite app_nil_r, world_eta.
  - rewrite upload_targets_cons, upload_target_run.
    pose proof (Hall (table, path) ltac:(by left)) as Hg. cbn [snd] in Hg.
    destruct (gather path (documents w)) as [docs' res] eqn:Hgather.
    cbn [snd] in Hg. subst res. apply gather_none in Hgather as ->.
    cbn zeta.
    destruct (IH (World (db w)
                    ((log w ++ [(INFO, lit "Extracting dynamic table " ++ table ++
                                       lit " from " ++ path)]) ++
                     [(WARNING, lit "No rows for " ++ table)])
                    (documents w))) as (lg & -> & Hlg).
    { intros t Ht. cbn [documents]. apply Hall. by right. }
    cbn [db log documents]. eexists. split.
    + by rewrite <- !app_assoc.
    + repeat constructor.
      * exists (table, path). split; [by left|by left].
      * exists (table, path). split; [by left|by right].
      * eapply Forall_impl; [exact Hlg|]. intros line (t & Ht & Hline).
        exists t. split; [by right|done].
Qed.

Lemma upload_targets_nothing_gathered_witness :
  ∃ lg, upload_dynamic quiet_engine
          (World (E := quiet_engine) [] [] [example_bare_issue; PInt 3])
        = (Ok (),
           World (E := quiet_engine) [] ([] ++ lg) [example_bare_issue; PInt 3]).
Proof.
  destruct (upload_targets_nothing_gathered quiet_engine DYNAMIC_TABLES
              (World (E := quiet_engine) [] [] [example_bare_issue; PInt 3]))
    as (lg & Hrun & _).
  - intros t Ht. apply list_elem_of_In in Ht.
    destruct Ht as [<-|[<-|[]]]; reflexivity.
  - by exists lg.
Defined.

Lemma gathered_rows_mappings (rows : list pyval) :
  Forall (λ r, ∃ d k, r = PDict d ∧ dict_lookup d (lit "issue_key") = Some k)
         rows →
  ∃ ds, rows = map PDict ds.
Proof.
  induction 1 as [|r rows (d & k & -> & _) _ (ds & ->)]; [by exists []|].
  by exists (d :: ds).
Qed.

Lemma drop_and_create_journal (table : pystr) (columns : list pystr)
  (w : world quiet_engine) :
  drop_and_create_table quiet_engine table columns w
  = (Ok (),
     World (E := quiet_engine)
       (db w ++ [(create_table_sql table columns, [])])
       (log w ++ [(INFO, lit "Created table " ++ table)]) (documents w)).
Proof. reflexivity. Qed.



(** ** Fetching, end to end *)

Lemma fetch_details_paged (format_value : pyval → pystr) (all keys : list pyval) :
  fetch_details format_value (paged_service all) keys
  = ([], Ok (map (λ key, PDict [(lit "key", key)]) keys)).
Proof.
  induction keys as [|key keys IH]; [done|].
  cbn [fetch_details issue_detail paged_service].
  rewrite decide_True by done.
  change (fetch_details format_value
            {| search := _; issue_detail := _ |} keys)
    with (fetch_details format_value (paged_service all) keys).
  by rewrite IH.
Qed.


